(** * Tri-query orchestration and context-budgeted chunking

    A shallow embedding of [src/tools/tri_query_tools.py]
    (class [ArtribuneTriQueryTool]) and the properties of its chunker,
    of its three source adapters and of the orchestrator [execute]. *)

From Stdlib Require Import ZArith NArith Lia Bool String Ascii DecimalString.
From stdpp Require Import base option list strings gmap.

Local Open Scope Z_scope.

(** ** Python strings

    A Python [str] is a sequence of Unicode code points and [len] counts code
    points, so a string is a list of code points.  ASCII literals of the source
    are written with [lit]; the few other characters of the source are given by
    their code point. *)

Abbreviation str := (list N) (only parsing).

Definition lit (s : string) : str :=
  List.map N_of_ascii (list_ascii_of_string s).

Definition len {A : Type} (s : list A) : Z := Z.of_nat (length s).

(** [str(n)] and [f"{n}"] for an [int]. *)
Definition str_of_int (z : Z) : str := lit (NilZero.string_of_int (Z.to_int z)).

(** Slice bounds: a negative index counts from the end, and both ends are
    clamped into [0 .. n]. *)
Definition slice_index (n i : Z) : Z :=
  if i <? 0 then Z.max 0 (i + n) else Z.min i n.

(** [s[:j]] *)
Definition slice_to {A : Type} (s : list A) (j : Z) : list A :=
  take (Z.to_nat (slice_index (len s) j)) s.

(** [s[i:]] *)
Definition slice_from {A : Type} (s : list A) (i : Z) : list A :=
  drop (Z.to_nat (slice_index (len s) i)) s.

(** [sep.join(parts)] *)
Fixpoint join (sep : str) (parts : list str) : str :=
  match parts with
  | [] => []
  | [x] => x
  | x :: rest => x ++ sep ++ join sep rest
  end.

(** [text.split('. ')]: the separator is looked for from left to right,
    occurrences do not overlap, and the result is never empty. *)
Definition is_dot_space (c d : N) : bool := (c =? 46)%N && (d =? 32)%N.

Fixpoint split_dot_space (s : str) : list str :=
  match s with
  | [] => [[]]
  | c :: s' =>
      match s' with
      | [] => [[c]]
      | d :: s'' =>
          if is_dot_space c d then [] :: split_dot_space s''
          else match split_dot_space s' with
               | h :: t => (c :: h) :: t
               | [] => [[c]]
               end
      end
  end.

Fixpoint is_prefix (p s : str) : bool :=
  match p, s with
  | [], _ => true
  | _ :: _, [] => false
  | a :: p', b :: s' => (a =? b)%N && is_prefix p' s'
  end.

(** [needle in hay] *)
Fixpoint contains (needle hay : str) : bool :=
  is_prefix needle hay ||
  match hay with
  | [] => false
  | _ :: hay' => contains needle hay'
  end.

(** [needle] occurs verbatim in [hay]. *)
Definition substring (needle hay : str) : Prop :=
  exists pre post, hay = pre ++ needle ++ post.

(** Whitespace in the sense of [str.split()] and [str.isspace()]. *)
Definition is_space (c : N) : bool :=
  ((9 <=? c) && (c <=? 13) || (28 <=? c) && (c <=? 32) || (c =? 133)
   || (c =? 160) || (c =? 5760) || (8192 <=? c) && (c <=? 8202)
   || (c =? 8232) || (c =? 8233) || (c =? 8239) || (c =? 8287)
   || (c =? 12288))%N.

(** [s.split()]: maximal runs of characters that are not whitespace. *)
Fixpoint split_ws_from (cur : str) (s : str) : list str :=
  match s with
  | [] => match cur with [] => [] | _ => [cur] end
  | c :: s' =>
      if is_space c
      then match cur with
           | [] => split_ws_from [] s'
           | _ => cur :: split_ws_from [] s'
           end
      else split_ws_from (cur ++ [c]) s'
  end.

Definition split_ws (s : str) : list str := split_ws_from [] s.

(** [str.lower] on text whose letters are ASCII. *)
Definition ascii_lower_char (c : N) : N :=
  if ((65 <=? c) && (c <=? 90))%N then (c + 32)%N else c.

Definition ascii_lower (s : str) : str := List.map ascii_lower_char s.

(** ** Results of Python computations *)

(** A computation returns a value or raises an exception derived from
    [Exception]; [Raises msg] carries the text [str(e)] of the exception. *)
Inductive outcome (A : Type) : Type :=
| Returns (a : A)
| Raises (msg : str).
Arguments Returns {A} a.
Arguments Raises {A} msg.

(** Values held by the dictionaries the adapters return. *)
Inductive pyval : Type :=
| VInt (z : Z)
| VStr (s : str)
| VList (l : list str).

(** Truth value of [d.get(key)]: a missing key gives [None]. *)
Definition truthy (v : option pyval) : bool :=
  match v with
  | None => false
  | Some (VInt z) => negb (z =? 0)
  | Some (VStr s) => match s with [] => false | _ => true end
  | Some (VList l) => match l with [] => false | _ => true end
  end.

(** ** The chunker *)

Section TriQuery.

(** [str.lower], for which the source relies on the interpreter: every result
    below holds whatever lower-casing function is used. *)
Variable lower : str -> str.

Definition art_keywords : list str :=
  List.map lit
    ["mostra"; "exhibition"; "galleria"; "museo"; "biennale"; "triennale";
     "artista"; "artist"; "curatore"; "curator"; "critico";
     "palazzo"; "fondazione"; "centro"; "spazio";
     "gennaio"; "febbraio"; "marzo"; "aprile"; "maggio"; "giugno";
     "luglio"; "agosto"; "settembre"; "ottobre"; "novembre"; "dicembre";
     "2020"; "2021"; "2022"; "2023"; "2024"; "2025"]%string.

(** [any(keyword in sentence.lower() for keyword in art_keywords)] *)
Definition is_important (sentence : str) : bool :=
  existsb (fun keyword => contains keyword (lower sentence)) art_keywords.

(** The loop that sorts the sentences into the two lists, in order. *)
Definition classify (sentences : list str) : list str * list str :=
  fold_left
    (fun '(important_sentences, regular_sentences) sentence =>
       if is_important sentence
       then (important_sentences ++ [sentence], regular_sentences)
       else (important_sentences, regular_sentences ++ [sentence]))
    sentences ([], []).

Definition ellipsis : str := lit "...".
Definition dot_space : str := lit ". ".

(** [int(chunk_size * 0.6)] and [int(chunk_size * 0.4)]: the product is a
    double and [int] truncates towards zero.  For every [chunk_size] below
    2^50 in absolute value the double product truncates to the same integer as
    the exact product, which is what is computed here; a larger [chunk_size]
    never reaches these lines with a string that fits in memory. *)
Definition first_part_of (chunk_size : Z) : Z := Z.quot (chunk_size * 6) 10.
Definition last_part_of (chunk_size : Z) : Z := Z.quot (chunk_size * 4) 10.

Definition important_text_of (text : str) : str :=
  join dot_space (fst (classify (split_dot_space text))).

Definition regular_text_of (text : str) : str :=
  join dot_space (snd (classify (split_dot_space text))).

Definition _chunk_text (text : str) (chunk_size : Z) (smart_chunking : bool) : str :=
  if len text <=? chunk_size then text
  else if negb smart_chunking then
    let first_part := first_part_of chunk_size in
    let last_part := last_part_of chunk_size in
    slice_to text first_part ++ ellipsis ++ slice_from text (- last_part)
  else
    let important_text := important_text_of text in
    if len important_text >=? chunk_size then
      slice_to important_text (chunk_size - 3) ++ ellipsis
    else
      let remaining_space := chunk_size - len important_text - 10 in
      let regular_text := regular_text_of text in
      if len regular_text <=? remaining_space then
        important_text ++ dot_space ++ regular_text
      else
        important_text ++ dot_space ++ slice_to regular_text remaining_space
          ++ ellipsis.

(** ** Collaborators and the state of the tool *)

(** A row of the graph query. *)
Record collab_record : Type := {
  artist1 : str;
  artist2 : str;
  mentions1 : Z;
  mentions2 : Z
}.

(** A row of the aggregation query: [(year, articles, events)]. *)
Record year_row : Type := {
  row_year : Z;
  row_articles : Z;
  row_events : Z
}.

(** What the external services answer.  [clock_today] is the proleptic
    Gregorian ordinal of the local date read by [datetime.now()]. *)
Record World : Type := {
  generate_content : str -> outcome str;
  graph_driver : outcome unit;
  pg_connect : outcome unit;
  driver_session : outcome unit;
  session_run : str -> outcome (list collab_record);
  conn_cursor : outcome unit;
  cursor_execute_fetchall : str -> outcome (list year_row);
  clock_today : Z
}.

(** Calls made to the external services, in the order they are made. *)
Inductive call : Type :=
| CallGenerate (prompt : str)
| CallGraphDriver
| CallPgConnect
| CallSession
| CallSessionRun (query : str)
| CallCursor
| CallExecute (query : str).

(** The fields of the tool object, and the log of the calls made so far. *)
Record Self : Type := {
  neo4j_driver : option unit;
  pg_conn : option unit;
  calls : list call
}.

Definition M (A : Type) : Type := Self -> outcome A * Self.

Definition ret {A : Type} (a : A) : M A := fun self => (Returns a, self).

Definition raise {A : Type} (msg : str) : M A := fun self => (Raises msg, self).

Definition bind {A B : Type} (m : M A) (k : A -> M B) : M B :=
  fun self =>
    match m self with
    | (Returns a, self') => k a self'
    | (Raises msg, self') => (Raises msg, self')
    end.

(** [try: body  except Exception as e: handler(str(e))] *)
Definition try_except {A : Type} (body : M A) (handler : str -> M A) : M A :=
  fun self =>
    match body self with
    | (Returns a, self') => (Returns a, self')
    | (Raises msg, self') => handler msg self'
    end.

Definition log_call (c : call) (self : Self) : Self :=
  {| neo4j_driver := neo4j_driver self;
     pg_conn := pg_conn self;
     calls := calls self ++ [c] |}.

(** A call to an external service: it is logged, and its answer returned. *)
Definition invoke {A : Type} (c : call) (answer : outcome A) : M A :=
  fun self => (answer, log_call c self).

Definition get_self : M Self := fun self => (Returns self, self).

Definition set_neo4j_driver (d : option unit) : M unit :=
  fun self =>
    (Returns tt, {| neo4j_driver := d; pg_conn := pg_conn self;
                    calls := calls self |}).

Definition set_pg_conn (c : option unit) : M unit :=
  fun self =>
    (Returns tt, {| neo4j_driver := neo4j_driver self; pg_conn := c;
                    calls := calls self |}).

Notation "'let!' x ':=' m 'in' k" := (bind m (fun x => k))
  (at level 10, x strict pattern, m at level 100, k at level 200, only parsing).
Notation "m1 '>>' m2" := (bind m1 (fun _ => m2))
  (at level 100, right associativity, only parsing).

(** A [for] loop whose body may raise, collecting what it appends. *)
Fixpoint for_each {A B : Type} (body : A -> M B) (items : list A) : M (list B) :=
  match items with
  | [] => ret []
  | x :: rest =>
      let! y := body x in
      let! ys := for_each body rest in
      ret (y :: ys)
  end.

Variable world : World.

Definition _setup_connections : M unit :=
  let! self := get_self in
  (match neo4j_driver self with
   | None =>
       let! d := invoke CallGraphDriver (graph_driver world) in
       set_neo4j_driver (Some d)
   | Some _ => ret tt
   end) >>
  let! self := get_self in
  match pg_conn self with
  | None =>
      let! c := invoke CallPgConnect (pg_connect world) in
      set_pg_conn (Some c)
  | Some _ => ret tt
  end.

(** ** The adapters *)

Definition nl : str := [10%N].
Definition indent : str := lit "        ".
Definition quote : str := [34%N].

Definition semantic_prompt (query : str) : str :=
  nl ++ indent ++ lit "Analizza brevemente questa domanda di arte contemporanea:"
  ++ nl ++ indent ++ quote ++ query ++ quote
  ++ nl ++ indent
  ++ nl ++ indent ++ lit "Rispondi in max 200 caratteri con:"
  ++ nl ++ indent ++ lit "ENTIT" ++ [192%N] ++ lit ": [artisti/luoghi principali]"
  ++ nl ++ indent ++ lit "TIPO: [ricerca|network|timeline]"
  ++ nl ++ indent ++ lit "FOCUS: [termine principale]"
  ++ nl ++ indent.

(** [{"error": str(e), usage_key: 0}] *)
Definition error_result (usage_key : string) (msg : str) : gmap string pyval :=
  <["error" := VStr msg]> (<[usage_key := VInt 0]> ∅).

(** The dictionary of a semantic analysis that went through. *)
Definition semantic_dict (entities : list str) (query_type focus analysis : str)
    (tokens_used : Z) : gmap string pyval :=
  <["entities" := VList entities]>
    (<["query_type" := VStr query_type]>
       (<["focus" := VStr focus]>
          (<["analysis" := VStr analysis]>
             (<["tokens_used" := VInt tokens_used]> ∅)))).

(** [query.split()[0] if query else ""] *)
Definition focus_of (query : str) : M str :=
  match query with
  | [] => ret []
  | _ :: _ =>
      match split_ws query with
      | token :: _ => ret token
      | [] => raise (lit "list index out of range")
      end
  end.

Definition _semantic_analysis (query : str) (chunk_size : Z)
  : M (gmap string pyval) :=
  let prompt := semantic_prompt query in
  try_except
    (let! response_text := invoke (CallGenerate prompt) (generate_content world prompt) in
     let analysis_text := _chunk_text response_text chunk_size true in
     let entities := [] in
     let query_type := lit "ricerca" in
     let! focus := focus_of query in
     ret (semantic_dict entities query_type focus analysis_text
            (len prompt + len analysis_text)))
    (fun e => ret (error_result "tokens_used" e)).

Definition cypher_query_of (max_results : Z) : str :=
  nl ++ indent ++ lit "MATCH (a:Artist)-[:COLLABORATES_WITH]-(b:Artist)"
  ++ nl ++ indent ++ lit "WHERE a.mentions > 100 AND b.mentions > 100"
  ++ nl ++ indent ++ lit "RETURN a.name as artist1, b.name as artist2, "
  ++ nl ++ lit "               a.mentions as mentions1, b.mentions as mentions2"
  ++ nl ++ indent ++ lit "ORDER BY (a.mentions + b.mentions) DESC"
  ++ nl ++ indent ++ lit "LIMIT " ++ str_of_int max_results
  ++ nl ++ indent.

(** [a // b] on [int]. *)
Definition floordiv (a b : Z) : M Z :=
  if b =? 0 then raise (lit "integer division or modulo by zero")
  else ret (a / b).

Definition artist_info_of (record : collab_record) : str :=
  artist1 record ++ lit " " ++ [8596%N] ++ lit " " ++ artist2 record
  ++ lit " (" ++ str_of_int (mentions1 record) ++ lit "+"
  ++ str_of_int (mentions2 record) ++ lit " menzioni)".

(** [sum(len(r) for r in results)] *)
Definition sum_len (results : list str) : Z :=
  fold_left (fun acc r => acc + len r) results 0.

(** The dictionary of a graph analysis that went through. *)
Definition graph_dict (results : list str) (cypher_query : str) : gmap string pyval :=
  <["collaborations" := VList results]>
    (<["total_found" := VInt (len results)]>
       (<["query_executed" := VStr (slice_to cypher_query 100 ++ ellipsis)]>
          (<["char_used" := VInt (sum_len results)]> ∅))).

(** The body of the loop over the rows of the graph query. *)
Definition chunk_record (max_results chunk_size : Z) (record : collab_record) : M str :=
  let artist_info := artist_info_of record in
  let! budget := floordiv chunk_size max_results in
  ret (_chunk_text artist_info budget true).

Definition _graph_analysis (query : str) (max_results chunk_size : Z)
  : M (gmap string pyval) :=
  _setup_connections >>
  let cypher_query := cypher_query_of max_results in
  let! session := invoke CallSession (driver_session world) in
  try_except
    (let! result := invoke (CallSessionRun cypher_query) (session_run world cypher_query) in
     let! results := for_each (chunk_record max_results chunk_size) result in
     ret (graph_dict results cypher_query))
    (fun e => ret (error_result "char_used" e)).

(** [date.fromordinal(n)] as [(year, month, day)], after [_ord2ymd] of the
    interpreter's [datetime] module. *)
Definition days_in_month (month : Z) : Z :=
  nth (Z.to_nat month) [-1; 31; 28; 31; 30; 31; 30; 31; 31; 30; 31; 30; 31] 0.

Definition days_before_month (month : Z) : Z :=
  nth (Z.to_nat month) [-1; 0; 31; 59; 90; 120; 151; 181; 212; 243; 273; 304; 334] 0.

Definition ord2ymd (ordinal : Z) : Z * Z * Z :=
  let n := ordinal - 1 in
  let n400 := n / 146097 in
  let n := n mod 146097 in
  let year := n400 * 400 + 1 in
  let n100 := n / 36524 in
  let n := n mod 36524 in
  let n4 := n / 1461 in
  let n := n mod 1461 in
  let n1 := n / 365 in
  let n := n mod 365 in
  let year := year + n100 * 100 + n4 * 4 + n1 in
  if (n1 =? 4) || (n100 =? 4) then (year - 1, 12, 31)
  else
    let leapyear := (n1 =? 3) && (negb (n4 =? 24) || (n100 =? 3)) in
    let month := Z.shiftr (n + 50) 5 in
    let preceding :=
      days_before_month month + (if (2 <? month) && leapyear then 1 else 0) in
    if n <? preceding then
      let month := month - 1 in
      let preceding :=
        preceding
        - (days_in_month month + (if (month =? 2) && leapyear then 1 else 0)) in
      (year, month, n - preceding + 1)
    else (year, month, n - preceding + 1).

(** A number printed on at least [width] digits. *)
Definition zero_padded (width : nat) (z : Z) : str :=
  let digits := str_of_int z in
  replicate (width - length digits) 48%N ++ digits.

(** [date.fromordinal(ordinal).strftime('%Y-%m-%d')], for the years of four
    digits. *)
Definition strftime_ymd (ordinal : Z) : str :=
  let '(year, month, day) := ord2ymd ordinal in
  zero_padded 4 year ++ lit "-" ++ zero_padded 2 month ++ lit "-"
  ++ zero_padded 2 day.

(** The date filter of [_temporal_analysis]; [str == str] is decided on the
    code points.  [datetime.now() - timedelta(days=365)] is the day 365 days
    before today. *)
Definition date_filter_of (date_range : str) : str :=
  if bool_decide (date_range = lit "last_year") then
    lit "published_date >= '" ++ strftime_ymd (clock_today world - 365) ++ lit "'"
  else if bool_decide (date_range = lit "2020-2024") then
    lit "published_date >= '2020-01-01' AND published_date < '2025-01-01'"
  else
    lit "published_date IS NOT NULL".

Definition temporal_query_of (date_filter : str) (max_results : Z) : str :=
  nl ++ indent ++ lit "SELECT "
  ++ nl ++ indent ++ lit "    EXTRACT(YEAR FROM published_date) as anno,"
  ++ nl ++ indent ++ lit "    COUNT(*) as articoli,"
  ++ nl ++ indent ++ lit "    COUNT(CASE WHEN is_event = true THEN 1 END) as eventi"
  ++ nl ++ indent ++ lit "FROM mcp_articles "
  ++ nl ++ indent ++ lit "WHERE " ++ date_filter
  ++ nl ++ indent ++ lit "GROUP BY EXTRACT(YEAR FROM published_date)"
  ++ nl ++ indent ++ lit "ORDER BY anno DESC"
  ++ nl ++ indent ++ lit "LIMIT " ++ str_of_int max_results
  ++ nl ++ indent.

Definition year_info_of (row : year_row) : str :=
  str_of_int (row_year row) ++ lit ": " ++ str_of_int (row_articles row)
  ++ lit " articoli, " ++ str_of_int (row_events row) ++ lit " eventi".

(** The dictionary of a temporal analysis that went through. *)
Definition temporal_dict (results : list str) (date_range : str) : gmap string pyval :=
  <["timeline" := VList results]>
    (<["date_range" := VStr date_range]>
       (<["total_years" := VInt (len results)]>
          (<["char_used" := VInt (sum_len results)]> ∅))).

(** [cur.execute] followed by [cur.fetchall] is one answer of the relational
    store: the rows, or the exception either of them raises. *)
Definition _temporal_analysis (query date_range : str) (max_results chunk_size : Z)
  : M (gmap string pyval) :=
  _setup_connections >>
  let date_filter := date_filter_of date_range in
  let temporal_query := temporal_query_of date_filter max_results in
  let! cur := invoke CallCursor (conn_cursor world) in
  try_except
    (let! rows := invoke (CallExecute temporal_query)
                    (cursor_execute_fetchall world temporal_query) in
     let results := List.map year_info_of rows in
     ret (temporal_dict results date_range))
    (fun e => ret (error_result "char_used" e)).

(** ** The orchestrator *)

Record TriQueryParams : Type := {
  query : str;
  use_semantic : bool;
  use_graph : bool;
  use_dates : bool;
  chunk_size : Z;
  max_results : Z;
  date_range : str;
  smart_chunking : bool;
  output_format : str
}.

(** The dictionary [execute] returns, one field per key. *)
Record TriQueryResponse : Type := {
  r_query : str;
  systems_used : list str;
  semantic_analysis : option (gmap string pyval);
  graph_data : option (gmap string pyval);
  temporal_data : option (gmap string pyval);
  combined_summary : str;
  context_usage : gmap string pyval;
  chunking_applied : Z * Z * Z
}.

(** [d.get(key, default)] *)
Definition dict_get (d : gmap string pyval) (key : string) (dflt : pyval) : pyval :=
  default dflt (d !! key).

(** Truth value of a result that is [None] or a dictionary. *)
Definition dict_truthy (r : option (gmap string pyval)) : bool :=
  match r with
  | None => false
  | Some d => negb (bool_decide (d = ∅))
  end.

(** [f"{v[:100]}"]; a string is the only kind of value the adapters store
    under ["analysis"], and the other kinds are given the exception an [int]
    raises. *)
Definition format_first_100 (v : pyval) : M str :=
  match v with
  | VStr s => ret (slice_to s 100)
  | _ => raise (lit "object is not subscriptable")
  end.

(** [len(v)] *)
Definition len_of (v : pyval) : M Z :=
  match v with
  | VStr s => ret (len s)
  | VList l => ret (len l)
  | VInt _ => raise (lit "object of type 'int' has no len()")
  end.

(** [sum(context_usage.values())], over the integers the adapters report. *)
Definition sum_values (usage : gmap string pyval) : Z :=
  map_fold (fun _ v acc => match v with VInt z => acc + z | _ => acc end) 0 usage.

Definition semantic_label : str := [129504%N] ++ lit " Semantico: ".
Definition network_label : str := [128376%N; 65039%N] ++ lit " Network: ".
Definition temporal_label : str := [128202%N] ++ lit " Temporale: ".

(** The [None] of a result that was not asked for. *)
Definition lookup_in (r : option (gmap string pyval)) (key : string) : option pyval :=
  match r with
  | None => None
  | Some d => d !! key
  end.

(** STEP 4 of [execute]: the parts of the summary. *)
Definition summary_parts_of
    (semantic_result graph_result temporal_result : option (gmap string pyval))
  : M (list str) :=
  let summary_parts := [] in
  let! summary_parts :=
    (if dict_truthy semantic_result then
       let! shown :=
         format_first_100
           (default (VStr (lit "N/A")) (lookup_in semantic_result "analysis")) in
       ret (summary_parts ++ [semantic_label ++ shown])
     else ret summary_parts) in
  let! summary_parts :=
    (if dict_truthy graph_result && truthy (lookup_in graph_result "collaborations") then
       match lookup_in graph_result "collaborations" with
       | Some v =>
           let! n := len_of v in
           ret (summary_parts
                ++ [network_label ++ str_of_int n ++ lit " collaborazioni trovate"])
       | None => raise (lit "'collaborations'")
       end
     else ret summary_parts) in
  let! summary_parts :=
    (if dict_truthy temporal_result && truthy (lookup_in temporal_result "timeline") then
       match lookup_in temporal_result "timeline" with
       | Some v =>
           let! n := len_of v in
           ret (summary_parts
                ++ [temporal_label ++ str_of_int n ++ lit " anni analizzati"])
       | None => raise (lit "'timeline'")
       end
     else ret summary_parts) in
  ret summary_parts.

(** [" | ".join(summary_parts) if summary_parts else "Nessun sistema attivato"] *)
Definition render_summary (summary_parts : list str) : str :=
  match summary_parts with
  | [] => lit "Nessun sistema attivato"
  | _ :: _ => join (lit " | ") summary_parts
  end.

Definition execute (params : TriQueryParams) : M TriQueryResponse :=
  let systems_used := [] in
  let context_usage : gmap string pyval := ∅ in
  (* STEP 1 *)
  let! (semantic_result, systems_used, context_usage) :=
    (if use_semantic params then
       let! semantic_result := _semantic_analysis (query params) (chunk_size params) in
       ret (Some semantic_result, systems_used ++ [lit "semantic"],
            <["semantic" := dict_get semantic_result "tokens_used" (VInt 0)]> context_usage)
     else ret (None, systems_used, context_usage)) in
  (* STEP 2 *)
  let! (graph_result, systems_used, context_usage) :=
    (if use_graph params then
       let! graph_result :=
         _graph_analysis (query params) (max_results params) (chunk_size params) in
       ret (Some graph_result, systems_used ++ [lit "graph"],
            <["graph" := dict_get graph_result "char_used" (VInt 0)]> context_usage)
     else ret (None, systems_used, context_usage)) in
  (* STEP 3 *)
  let! (temporal_result, systems_used, context_usage) :=
    (if use_dates params then
       let! temporal_result :=
         _temporal_analysis (query params) (date_range params)
           (max_results params) (chunk_size params) in
       ret (Some temporal_result, systems_used ++ [lit "temporal"],
            <["temporal" := dict_get temporal_result "char_used" (VInt 0)]> context_usage)
     else ret (None, systems_used, context_usage)) in
  (* STEP 4 *)
  let! summary_parts :=
    summary_parts_of semantic_result graph_result temporal_result in
  let combined_summary := render_summary summary_parts in
  ret {| r_query := query params;
         systems_used := systems_used;
         semantic_analysis := semantic_result;
         graph_data := graph_result;
         temporal_data := temporal_result;
         combined_summary := combined_summary;
         context_usage := context_usage;
         chunking_applied :=
           (chunk_size params, max_results params, sum_values context_usage) |}.

(** The three adapters, as [execute] calls them. *)
Inductive adapter : Type := Semantic | Graph | Temporal.

Definition run_adapter (a : adapter) (params : TriQueryParams)
  : M (gmap string pyval) :=
  match a with
  | Semantic => _semantic_analysis (query params) (chunk_size params)
  | Graph => _graph_analysis (query params) (max_results params) (chunk_size params)
  | Temporal =>
      _temporal_analysis (query params) (date_range params) (max_results params)
        (chunk_size params)
  end.

(** What the semantic adapter returns: it always returns, after one call to
    the generative service. *)
Definition semantic_outcome (query : str) (chunk_size : Z) : gmap string pyval :=
  match generate_content world (semantic_prompt query) with
  | Raises msg => error_result "tokens_used" msg
  | Returns response_text =>
      let analysis_text := _chunk_text response_text chunk_size true in
      let answer focus :=
        semantic_dict [] (lit "ricerca") focus analysis_text
          (len (semantic_prompt query) + len analysis_text) in
      match query with
      | [] => answer []
      | _ :: _ =>
          match split_ws query with
          | token :: _ => answer token
          | [] => error_result "tokens_used" (lit "list index out of range")
          end
      end
  end.

(** What the graph adapter returns once the session is open. *)
Definition graph_outcome (max_results chunk_size : Z) : gmap string pyval :=
  let cypher_query := cypher_query_of max_results in
  match session_run world cypher_query with
  | Raises msg => error_result "char_used" msg
  | Returns [] => graph_dict [] cypher_query
  | Returns (row :: rows) =>
      if max_results =? 0
      then error_result "char_used" (lit "integer division or modulo by zero")
      else graph_dict
             (List.map
                (fun record =>
                   _chunk_text (artist_info_of record)
                     (chunk_size / max_results) true) (row :: rows))
             cypher_query
  end.

(** What the temporal adapter returns once the cursor is open. *)
Definition temporal_outcome (date_range : str) (max_results : Z) : gmap string pyval :=
  match cursor_execute_fetchall world
          (temporal_query_of (date_filter_of date_range) max_results) with
  | Raises msg => error_result "char_used" msg
  | Returns rows => temporal_dict (List.map year_info_of rows) date_range
  end.

End TriQuery.

(** The key under which an adapter reports its usage, the key of its list of
    items, its name in [context_usage], its flag in the request and its
    result in the response. *)
Definition usage_key (a : adapter) : string :=
  match a with
  | Semantic => "tokens_used"
  | Graph | Temporal => "char_used"
  end.

Definition system_name (a : adapter) : string :=
  match a with
  | Semantic => "semantic"
  | Graph => "graph"
  | Temporal => "temporal"
  end.

Definition enabled (a : adapter) (params : TriQueryParams) : bool :=
  match a with
  | Semantic => use_semantic params
  | Graph => use_graph params
  | Temporal => use_dates params
  end.

Definition result_of (a : adapter) (response : TriQueryResponse)
  : option (gmap string pyval) :=
  match a with
  | Semantic => semantic_analysis response
  | Graph => graph_data response
  | Temporal => temporal_data response
  end.

(** A result is an error result when its ["error"] key is set. *)
Definition is_error (d : gmap string pyval) : bool :=
  match d !! "error" with
  | Some _ => true
  | None => false
  end.

(** The forms of the dictionaries the adapters return for a request. *)
Inductive adapter_result (params : TriQueryParams)
  : adapter -> gmap string pyval -> Prop :=
| result_error (a : adapter) (msg : str) :
    adapter_result params a (error_result (usage_key a) msg)
| result_semantic (focus analysis : str) :
    adapter_result params Semantic
      (semantic_dict [] (lit "ricerca") focus analysis
         (len (semantic_prompt (query params)) + len analysis))
| result_graph (results : list str) :
    adapter_result params Graph
      (graph_dict results (cypher_query_of (max_results params)))
| result_temporal (results : list str) :
    adapter_result params Temporal (temporal_dict results (date_range params)).

(** A result that is there has one of the forms of its adapter. *)
Definition shaped (params : TriQueryParams) (a : adapter)
    (r : option (gmap string pyval)) : Prop :=
  match r with
  | None => True
  | Some d => adapter_result params a d
  end.

(** ** The statements of the specification, for comparison *)

(** The number of characters an adapter's result accounts for: nothing for an
    error result; for the semantic adapter the prompt and the chunked
    analysis; for the two others the items of the returned list. *)
Definition accounted_chars (query : str) (a : adapter) (d : gmap string pyval)
  : option Z :=
  if is_error d then Some 0
  else
    match a with
    | Semantic =>
        match d !! "analysis" with
        | Some (VStr analysis) => Some (len (semantic_prompt query) + len analysis)
        | _ => None
        end
    | Graph =>
        match d !! "collaborations" with
        | Some (VList items) => Some (len (concat items))
        | _ => None
        end
    | Temporal =>
        match d !! "timeline" with
        | Some (VList items) => Some (len (concat items))
        | _ => None
        end
    end.

(** The fragments of [combined_summary], read off the results: the semantic
    fragment for every semantic result, with ["N/A"] in place of the analysis
    of an error result; the graph and temporal fragments for a result that is
    not an error and whose list is not empty. *)
Definition semantic_fragment (r : option (gmap string pyval)) : list str :=
  match r with
  | None => []
  | Some d =>
      if is_error d then [semantic_label ++ lit "N/A"]
      else
        match d !! "analysis" with
        | Some (VStr analysis) => [semantic_label ++ take 100 analysis]
        | _ => []
        end
  end.

Definition count_fragment (label suffix : str) (list_key : string)
    (r : option (gmap string pyval)) : list str :=
  match r with
  | None => []
  | Some d =>
      if is_error d then []
      else
        match d !! list_key with
        | Some (VList (item :: items)) =>
            [label ++ str_of_int (len (item :: items)) ++ suffix]
        | _ => []
        end
  end.

Definition summary_fragments (response : TriQueryResponse) : list str :=
  semantic_fragment (semantic_analysis response)
  ++ count_fragment network_label (lit " collaborazioni trovate") "collaborations"
       (graph_data response)
  ++ count_fragment temporal_label (lit " anni analizzati") "timeline"
       (temporal_data response).

(** What a date range restricts the publication date to. *)
Inductive date_restriction : Type :=
| NoRestriction
| SinceDay (ordinal : Z)
| YearRange (start_year end_year : Z)
| DateNotNull.

(** The text of a restriction in the [WHERE] clause; no text restricts
    nothing.  A range of years has an inclusive lower bound on January 1 of
    its first year and an exclusive upper bound on January 1 of the year after
    its last. *)
Definition sql_of_restriction (r : date_restriction) : option str :=
  match r with
  | NoRestriction => None
  | SinceDay ordinal =>
      Some (lit "published_date >= '" ++ strftime_ymd ordinal ++ lit "'")
  | YearRange start_year end_year =>
      Some (lit "published_date >= '" ++ zero_padded 4 start_year
            ++ lit "-01-01' AND published_date < '"
            ++ zero_padded 4 (end_year + 1) ++ lit "-01-01'")
  | DateNotNull => Some (lit "published_date IS NOT NULL")
  end.

Definition digit_value (c : N) : option Z :=
  if ((48 <=? c) && (c <=? 57))%N then Some (Z.of_N c - 48) else None.

Definition year_of_digits (a b c d : N) : option Z :=
  match digit_value a, digit_value b, digit_value c, digit_value d with
  | Some a, Some b, Some c, Some d => Some (1000 * a + 100 * b + 10 * c + d)
  | _, _, _, _ => None
  end.

(** ["YYYY-YYYY"] *)
Definition parse_year_range (s : str) : option (Z * Z) :=
  match s with
  | [a; b; c; d; dash; e; f; g; h] =>
      if (dash =? 45)%N then
        match year_of_digits a b c d, year_of_digits e f g h with
        | Some start_year, Some end_year => Some (start_year, end_year)
        | _, _ => None
        end
      else None
  | _ => None
  end.

(** The resolution of [date_range] in the words of the specification. *)
Definition resolve_date_range_spec (today : Z) (date_range : str) : date_restriction :=
  if bool_decide (date_range = lit "all") then NoRestriction
  else if bool_decide (date_range = lit "last_year") then SinceDay (today - 365)
  else
    match parse_year_range date_range with
    | Some (start_year, end_year) => YearRange start_year end_year
    | None => DateNotNull
    end.

(** The resolution of [date_range] the adapter performs: one range of years
    only is known, and ["all"] is not told apart from an unknown value. *)
Definition resolve_date_range_code (today : Z) (date_range : str) : date_restriction :=
  if bool_decide (date_range = lit "last_year") then SinceDay (today - 365)
  else if bool_decide (date_range = lit "2020-2024") then YearRange 2020 2024
  else DateNotNull.

(** ** Sample services and requests *)

Definition sample_world : World :=
  {| generate_content := fun _ => Returns (lit "ok");
     graph_driver := Returns tt;
     pg_connect := Returns tt;
     driver_session := Returns tt;
     session_run := fun _ =>
       Returns [ {| artist1 := lit "Burri"; artist2 := lit "Fontana";
                    mentions1 := 320; mentions2 := 210 |} ];
     conn_cursor := Returns tt;
     cursor_execute_fetchall := fun _ =>
       Returns [ {| row_year := 2024; row_articles := 120; row_events := 30 |} ];
     clock_today := 739924 |}.

(** The graph store has no row to return. *)
Definition world_no_rows : World :=
  {| generate_content := generate_content sample_world;
     graph_driver := Returns tt;
     pg_connect := Returns tt;
     driver_session := Returns tt;
     session_run := fun _ => Returns [];
     conn_cursor := Returns tt;
     cursor_execute_fetchall := cursor_execute_fetchall sample_world;
     clock_today := 739924 |}.

(** The relational store refuses the connection. *)
Definition world_pg_down : World :=
  {| generate_content := generate_content sample_world;
     graph_driver := Returns tt;
     pg_connect := Raises (lit "connection refused");
     driver_session := Returns tt;
     session_run := session_run sample_world;
     conn_cursor := Returns tt;
     cursor_execute_fetchall := cursor_execute_fetchall sample_world;
     clock_today := 739924 |}.

(** The generative service fails. *)
Definition world_model_down : World :=
  {| generate_content := fun _ => Raises (lit "quota exceeded");
     graph_driver := Returns tt;
     pg_connect := Returns tt;
     driver_session := Returns tt;
     session_run := session_run sample_world;
     conn_cursor := Returns tt;
     cursor_execute_fetchall := cursor_execute_fetchall sample_world;
     clock_today := 739924 |}.

(** The graph store fails on the query. *)
Definition world_graph_query_fails : World :=
  {| generate_content := generate_content sample_world;
     graph_driver := Returns tt;
     pg_connect := Returns tt;
     driver_session := Returns tt;
     session_run := fun _ => Raises (lit "syntax error");
     conn_cursor := Returns tt;
     cursor_execute_fetchall := cursor_execute_fetchall sample_world;
     clock_today := 739924 |}.

Definition fresh_self : Self :=
  {| neo4j_driver := None; pg_conn := None; calls := [] |}.

Definition request (text : str) (semantic graph dates : bool)
    (size results : Z) (range : str) : TriQueryParams :=
  {| query := text;
     use_semantic := semantic;
     use_graph := graph;
     use_dates := dates;
     chunk_size := size;
     max_results := results;
     date_range := range;
     smart_chunking := true;
     output_format := lit "summary" |}.

Definition graph_only_zero : TriQueryParams :=
  request (lit "x") false true false 200 0 (lit "all").

Definition semantic_only : TriQueryParams :=
  request (lit "x") true false false 2000 10 (lit "all").

Definition semantic_and_graph : TriQueryParams :=
  request (lit "x") true true false 200 5 (lit "all").


(** ** The caller: authentication and the [/mcp/tri_query] endpoint

    [src/auth/api_key.py] and the handler [mcp_tri_query] of
    [src/server.py]. *)

Definition is_alnum (c : N) : bool :=
  ((97 <=? c) && (c <=? 122) || (65 <=? c) && (c <=? 90)
   || (48 <=? c) && (c <=? 57))%N.

(** [bool(re.match(r'^artr-[a-zA-Z0-9]{24}$', key))]: the literal prefix, 24
    characters of the class, then [$], which holds at the end of the string
    and also just before a newline that ends the string. *)
Definition validate_api_key_format (key : str) : bool :=
  is_prefix (lit "artr-") key
  && (let rest := drop 5 key in
      (24 <=? length rest)%nat
      && forallb is_alnum (take 24 rest)
      && match drop 24 rest with
         | [] => true
         | [c] => (c =? 10)%N
         | _ :: _ :: _ => false
         end).

(** [s.lstrip()], [s.rstrip()] and [s.strip()] *)
Fixpoint lstrip (s : str) : str :=
  match s with
  | [] => []
  | c :: s' => if is_space c then lstrip s' else s
  end.

Definition rstrip (s : str) : str := rev (lstrip (rev s)).

Definition strip (s : str) : str := rstrip (lstrip s).

(** [s.split(sep)] for a separator of one character. *)
Fixpoint split_char (sep : N) (s : str) : list str :=
  match s with
  | [] => [[]]
  | c :: s' =>
      if (c =? sep)%N then [] :: split_char sep s'
      else match split_char sep s' with
           | h :: t => (c :: h) :: t
           | [] => [[c]]
           end
  end.

Definition nonempty (s : str) : bool :=
  match s with
  | [] => false
  | _ :: _ => true
  end.

(** [get_valid_api_keys], given the value of [MCP_API_KEYS] (the empty string
    when the variable is not set). *)
Definition get_valid_api_keys (keys_str : str) : list str :=
  let keys :=
    List.map strip
      (List.filter (fun key => nonempty (strip key)) (split_char 44 keys_str)) in
  let valid_keys := List.filter validate_api_key_format keys in
  valid_keys.

(** What an endpoint or a dependency gives: a value, or an [HTTPException]. *)
Inductive http_result (A : Type) : Type :=
| HttpOk (a : A)
| HTTPException (status_code : Z) (detail : str).
Arguments HttpOk {A} a.
Arguments HTTPException {A} status_code detail.

(** [x in keys] *)
Definition key_in (x : str) (keys : list str) : bool :=
  existsb (fun key => bool_decide (x = key)) keys.

Definition verify_api_key (keys_str credentials : str) : http_result str :=
  if negb (validate_api_key_format credentials) then
    HTTPException 401 (lit "Invalid API key format. Required: artr-<24 characters>")
  else
    let valid_keys := get_valid_api_keys keys_str in
    match valid_keys with
    | [] => HTTPException 500 (lit "No valid API keys configured")
    | _ :: _ =>
        if negb (key_in credentials valid_keys) then
          HTTPException 401 (lit "API key required or invalid")
        else HttpOk credentials
    end.

(** [ArtribuneTriQueryTool()]: no connection yet, and no call made. *)
Definition new_tool : Self :=
  {| neo4j_driver := None; pg_conn := None; calls := [] |}.

(** The dictionary the endpoint returns, one field per key. *)
Record TriQueryEnvelope : Type := {
  tri_query_result : TriQueryResponse;
  mcp_version : str;
  chunking_enabled : bool;
  default_chunk_size : Z;
  envelope_smart_chunking : bool;
  systems_available : list str;
  envelope_systems_used : list str
}.

(** [mcp_tri_query]: the key is verified first; the tool is made anew for the
    request; an exception of [execute] becomes a 500.  The second component
    is the list of the calls made to the external services. *)
Definition mcp_tri_query (lower : str -> str) (world : World)
    (keys_str credentials : str) (params : TriQueryParams)
  : http_result TriQueryEnvelope * list call :=
  match verify_api_key keys_str credentials with
  | HTTPException status_code detail => (HTTPException status_code detail, [])
  | HttpOk api_key =>
      let tri_tool := new_tool in
      match execute lower world params tri_tool with
      | (Returns result, tri_tool') =>
          (HttpOk {| tri_query_result := result;
                     mcp_version := lit "1.0.0";
                     chunking_enabled := true;
                     default_chunk_size := 2000;
                     envelope_smart_chunking := smart_chunking params;
                     systems_available :=
                       [lit "semantic"; lit "graph"; lit "temporal"];
                     envelope_systems_used := systems_used result |},
           calls tri_tool')
      | (Raises e, tri_tool') =>
          (HTTPException 500 (lit "Tri-query failed: " ++ e), calls tri_tool')
      end
  end.

(** A well-formed key, for the runs below. *)
Definition sample_key : str := lit "artr-0123456789abcdefABCDEF01".

(** A request with other values of [smart_chunking] and [output_format]. *)
Definition with_options (params : TriQueryParams) (smart : bool) (format : str)
  : TriQueryParams :=
  {| query := query params;
     use_semantic := use_semantic params;
     use_graph := use_graph params;
     use_dates := use_dates params;
     chunk_size := chunk_size params;
     max_results := max_results params;
     date_range := date_range params;
     smart_chunking := smart;
     output_format := format |}.

(** The usage [context_usage] holds for a system: 0 when it has no entry. *)
Definition usage_entry (response : TriQueryResponse) (a : adapter) : Z :=
  match context_usage response !! system_name a with
  | Some (VInt z) => z
  | _ => 0
  end.

Definition all_systems : TriQueryParams :=
  request (lit "Biennale di Venezia") true true true 200 5 (lit "2020-2024").

(** A value of [MCP_API_KEYS]: a key within spaces, and an entry that is not
    a key. *)
Definition sample_keys_str : str := lit " artr-0123456789abcdefABCDEF01 ,bad".
(** * Properties *)

(** ** Lists of code points *)

Lemma len_nonneg {A : Type} (s : list A) : 0 <= len s.
Proof. unfold len. lia. Qed.

Lemma len_app {A : Type} (s t : list A) : len (s ++ t) = len s + len t.
Proof. unfold len. rewrite length_app. lia. Qed.

Lemma len_slice_to {A : Type} (s : list A) (j : Z) :
  0 <= j -> len (slice_to s j) = Z.min j (len s).
Proof.
  intros Hj. unfold slice_to, slice_index.
  destruct (Z.ltb_spec j 0) as [Hneg | _]; [lia |].
  unfold len. rewrite length_take. lia.
Qed.

Lemma slice_to_take {A : Type} (s : list A) (j : Z) :
  0 <= j <= len s -> slice_to s j = take (Z.to_nat j) s.
Proof.
  intros Hj. unfold slice_to, slice_index.
  destruct (Z.ltb_spec j 0) as [Hneg | _]; [lia |].
  f_equal. lia.
Qed.

Lemma slice_from_last {A : Type} (s : list A) (k : Z) :
  0 < k <= len s -> slice_from s (- k) = drop (length s - Z.to_nat k) s.
Proof.
  intros Hk. unfold slice_from, slice_index.
  destruct (Z.ltb_spec (- k) 0) as [_ | Hpos]; [| lia].
  f_equal. unfold len in *. lia.
Qed.

Lemma is_prefix_app (p rest : str) : is_prefix p (p ++ rest) = true.
Proof.
  induction p as [| a p IH]; simpl; [reflexivity |].
  rewrite N.eqb_refl. exact IH.
Qed.

Lemma substring_contains (needle hay : str) :
  substring needle hay -> contains needle hay = true.
Proof.
  intros (pre & post & ->).
  induction pre as [| a pre IH].
  - simpl. destruct (needle ++ post) eqn:E; simpl; rewrite <- ?E;
      rewrite is_prefix_app; reflexivity.
  - simpl. rewrite IH. apply orb_true_r.
Qed.

Lemma substring_refl (s : str) : substring s s.
Proof. exists [], []. rewrite app_nil_r. reflexivity. Qed.

Lemma substring_app_l (s t u : str) : substring s t -> substring s (t ++ u).
Proof.
  intros (pre & post & ->). exists pre, (post ++ u).
  rewrite <- !app_assoc. reflexivity.
Qed.

Lemma substring_app_r (s t u : str) : substring s u -> substring s (t ++ u).
Proof.
  intros (pre & post & ->). exists (t ++ pre), post.
  rewrite <- !app_assoc. reflexivity.
Qed.

(** Every part of a joined string occurs in it verbatim. *)
Lemma substring_join (sep : str) (parts : list str) (s : str) :
  In s parts -> substring s (join sep parts).
Proof.
  induction parts as [| x rest IH]; intros Hin; [destruct Hin |].
  destruct Hin as [-> | Hin].
  - destruct rest; simpl; [apply substring_refl |].
    apply substring_app_l, substring_refl.
  - destruct rest as [| y rest']; [destruct Hin |].
    change (join sep (x :: y :: rest')) with (x ++ sep ++ join sep (y :: rest')).
    apply substring_app_r, substring_app_r, IH, Hin.
Qed.

Lemma split_dot_space_cons2 (c d : N) (s : str) :
  split_dot_space (c :: d :: s) =
  if is_dot_space c d then [] :: split_dot_space s
  else match split_dot_space (d :: s) with
       | h :: t => (c :: h) :: t
       | [] => [[c]]
       end.
Proof. reflexivity. Qed.

(** Splitting on the separator and joining with it gives the text back. *)
Lemma join_split_dot_space (s : str) :
  join (lit ". ") (split_dot_space s) = s.
Proof.
  remember (length s) as n eqn:Hn.
  revert s Hn. induction n as [n IH] using lt_wf_ind. intros s Hn.
  destruct s as [| c [| d s'']]; [reflexivity | reflexivity |].
  rewrite split_dot_space_cons2.
  destruct (is_dot_space c d) eqn:Hsep.
  - unfold is_dot_space in Hsep. apply andb_true_iff in Hsep as [Hc Hd].
    apply N.eqb_eq in Hc, Hd. subst c d.
    assert (Hrec : join (lit ". ") (split_dot_space s'') = s'').
    { apply (IH (length s'')); [simpl in Hn; lia | reflexivity]. }
    destruct (split_dot_space s'') as [| h t] eqn:Hs.
    + simpl in Hrec. subst s''. simpl in Hs. discriminate.
    + change (join (lit ". ") ([] :: h :: t))
        with ([] ++ lit ". " ++ join (lit ". ") (h :: t)).
      rewrite Hrec. reflexivity.
  - assert (Hrec : join (lit ". ") (split_dot_space (d :: s'')) = d :: s'').
    { apply (IH (length (d :: s''))); [simpl in Hn |- *; lia | reflexivity]. }
    destruct (split_dot_space (d :: s'')) as [| h t] eqn:Hs.
    + simpl in Hrec. discriminate.
    + destruct t as [| h' t'].
      * simpl in Hrec |- *. rewrite Hrec. reflexivity.
      * change (join (lit ". ") (h :: h' :: t'))
          with (h ++ lit ". " ++ join (lit ". ") (h' :: t')) in Hrec.
        change (join (lit ". ") ((c :: h) :: h' :: t'))
          with ((c :: h) ++ lit ". " ++ join (lit ". ") (h' :: t')).
        simpl. rewrite <- Hrec. reflexivity.
Qed.

Section ChunkerProperties.

Variable lower : str -> str.

(** The loop of the chunker keeps the sentences of each kind in order. *)
Lemma classify_filter (sentences : list str) :
  classify lower sentences =
  (List.filter (is_important lower) sentences,
   List.filter (fun s => negb (is_important lower s)) sentences).
Proof.
  unfold classify.
  enough (H : forall imp reg,
             fold_left
               (fun '(important_sentences, regular_sentences) sentence =>
                  if is_important lower sentence
                  then (important_sentences ++ [sentence], regular_sentences)
                  else (important_sentences, regular_sentences ++ [sentence]))
               sentences (imp, reg) =
             (imp ++ List.filter (is_important lower) sentences,
              reg ++ List.filter (fun s => negb (is_important lower s)) sentences))
    by apply (H [] []).
  induction sentences as [| s rest IH]; intros imp reg; simpl.
  - rewrite !app_nil_r. reflexivity.
  - destruct (is_important lower s); simpl; rewrite IH, <- app_assoc; reflexivity.
Qed.

Lemma important_text_join (text : str) :
  important_text_of lower text =
  join (lit ". ") (List.filter (is_important lower) (split_dot_space text)).
Proof. unfold important_text_of. rewrite classify_filter. reflexivity. Qed.

Lemma chunk_text_short (text : str) (budget : Z) (smart : bool) :
  len text <= budget -> _chunk_text lower text budget smart = text.
Proof.
  intros Hle. unfold _chunk_text.
  destruct (Z.leb_spec (len text) budget); [reflexivity | lia].
Qed.

Lemma len_ellipsis : len ellipsis = 3.
Proof. reflexivity. Qed.

Lemma len_dot_space : len dot_space = 2.
Proof. reflexivity. Qed.

(** The head and tail split, when the text is longer than the budget. *)
Lemma chunk_text_plain (text : str) (budget : Z) :
  4 <= budget -> budget < len text ->
  _chunk_text lower text budget false =
    take (Z.to_nat (budget * 6 / 10)) text ++ lit "..."
    ++ drop (length text - Z.to_nat (budget * 4 / 10)) text.
Proof.
  intros Hb Hlong. unfold _chunk_text.
  destruct (Z.leb_spec (len text) budget); [lia |]. simpl negb. cbv iota.
  unfold first_part_of, last_part_of.
  rewrite !Z.quot_div_nonneg by lia.
  assert (0 <= budget * 6 / 10 <= budget)
    by (split; [apply Z.div_pos; lia | apply Z.div_le_upper_bound; lia]).
  assert (0 < budget * 4 / 10 <= budget)
    by (split; [apply Z.div_str_pos; lia | apply Z.div_le_upper_bound; lia]).
  rewrite slice_to_take by lia.
  rewrite slice_from_last by lia.
  reflexivity.
Qed.

Lemma chunk_text_smart_bound (text : str) (budget : Z) :
  4 <= budget ->
  budget <= len (important_text_of lower text)
  \/ len (important_text_of lower text) + 10 <= budget ->
  len (_chunk_text lower text budget true) <= budget.
Proof.
  intros Hb Himp. unfold _chunk_text.
  destruct (Z.leb_spec (len text) budget); [lia |]. simpl negb. cbv iota.
  destruct (Z.geb_spec (len (important_text_of lower text)) budget) as [Hge | Hlt].
  - rewrite len_app, len_slice_to, len_ellipsis by lia. lia.
  - destruct Himp as [Himp | Himp]; [lia |].
    destruct (Z.leb_spec (len (regular_text_of lower text))
                (budget - len (important_text_of lower text) - 10)).
    + rewrite !len_app, len_dot_space. lia.
    + rewrite !len_app, len_dot_space, len_slice_to, len_ellipsis by lia. lia.
Qed.

(** C8.  A text no longer than the budget is returned unchanged, whatever
    the budget and the [smart_chunking] flag; chunking it again, the output
    being no longer than the budget either, changes nothing. *)
Theorem chunk_text_identity (text : str) (budget : Z) (smart : bool) :
  len text <= budget ->
  _chunk_text lower text budget smart = text
  /\ (forall smart' : bool,
        _chunk_text lower (_chunk_text lower text budget smart) budget smart'
        = _chunk_text lower text budget smart).
Proof.
  intros Hle. split; [apply chunk_text_short, Hle |].
  intros smart'. rewrite (chunk_text_short text budget smart Hle).
  apply chunk_text_short, Hle.
Qed.

(** C1, as the code has it.  For a budget of at least 4: a text within the
    budget is returned as it is; a longer text chunked with
    [smart_chunking = False] becomes its first [floor(budget * 0.6)]
    characters, the marker ["..."] and its last [floor(budget * 0.4)]
    characters, which is 2 or 3 characters more than the budget; chunked with
    [smart_chunking = True] the output is within the budget when the salient
    text is at least as long as the budget or at least 10 characters
    shorter. *)
Theorem chunk_text_size (text : str) (budget : Z) (smart : bool) :
  4 <= budget ->
  (len text <= budget -> _chunk_text lower text budget smart = text)
  /\ (budget < len text -> smart = false ->
      _chunk_text lower text budget smart =
        take (Z.to_nat (budget * 6 / 10)) text ++ lit "..."
        ++ drop (length text - Z.to_nat (budget * 4 / 10)) text
      /\ len (_chunk_text lower text budget smart) =
           budget * 6 / 10 + 3 + budget * 4 / 10
      /\ budget + 2 <= len (_chunk_text lower text budget smart) <= budget + 3)
  /\ (smart = true ->
      budget <= len (important_text_of lower text)
      \/ len (important_text_of lower text) + 10 <= budget ->
      len (_chunk_text lower text budget smart) <= budget).
Proof.
  intros Hb. split; [apply chunk_text_short |]. split.
  - intros Hlong ->.
    assert (Hhead : 0 <= budget * 6 / 10 <= budget)
      by (split; [apply Z.div_pos; lia | apply Z.div_le_upper_bound; lia]).
    assert (Htail : 0 < budget * 4 / 10 <= budget)
      by (split; [apply Z.div_str_pos; lia | apply Z.div_le_upper_bound; lia]).
    assert (Hlen : len (_chunk_text lower text budget false)
                   = budget * 6 / 10 + 3 + budget * 4 / 10).
    { rewrite chunk_text_plain by lia.
      unfold len in *. rewrite !length_app, length_take, length_drop.
      change (length (lit "...")) with 3%nat. lia. }
    split; [apply chunk_text_plain; lia |]. split; [exact Hlen |].
    rewrite Hlen.
    pose proof (Z.div_mod (budget * 6) 10 ltac:(lia)).
    pose proof (Z.mod_pos_bound (budget * 6) 10 ltac:(lia)).
    pose proof (Z.div_mod (budget * 4) 10 ltac:(lia)).
    pose proof (Z.mod_pos_bound (budget * 4) 10 ltac:(lia)).
    lia.
  - intros -> Himp. apply chunk_text_smart_bound; assumption.
Qed.

(** C5, as the code has it.  When the text is longer than the budget and the
    salient text (the salient sentences joined by [". "]) is strictly shorter
    than the budget, every salient sentence occurs verbatim in the output of
    the chunker run with [smart_chunking = True]. *)
Theorem salient_sentences_preserved (text : str) (budget : Z) (sentence : str) :
  budget < len text ->
  len (important_text_of lower text) < budget ->
  In sentence (split_dot_space text) ->
  is_important lower sentence = true ->
  substring sentence (_chunk_text lower text budget true).
Proof.
  intros Hlong Hroom Hin Hkey.
  assert (Hsub : substring sentence (important_text_of lower text)).
  { rewrite important_text_join. apply substring_join.
    apply filter_In. split; assumption. }
  unfold _chunk_text.
  destruct (Z.leb_spec (len text) budget); [lia |]. simpl negb. cbv iota.
  destruct (Z.geb_spec (len (important_text_of lower text)) budget); [lia |].
  destruct (Z.leb_spec (len (regular_text_of lower text))
              (budget - len (important_text_of lower text) - 10));
    apply substring_app_l, Hsub.
Qed.

End ChunkerProperties.

(** The head and tail split of a text of 10 characters under a budget of 4. *)
Example chunk_text_plain_4 :
  _chunk_text ascii_lower (lit "aaaaaaaaaa") 4 false = lit "aa...a".
Proof. reflexivity. Qed.

(** A text without any keyword under a budget below 10: the slice
    [regular_text[:remaining_space]] has a negative bound and so drops the
    last 6 characters only. *)
Example chunk_text_smart_4 :
  _chunk_text ascii_lower (lit "aaaaaaaaaaaaaaaaaaaaaaaa") 4 true
  = lit ". aaaaaaaaaaaaaaaaaa...".
Proof. reflexivity. Qed.

Example chunk_text_scenario_b :
  _chunk_text ascii_lower (lit "short text") 100 true = lit "short text".
Proof. reflexivity. Qed.

Example chunk_text_keeps_salient :
  _chunk_text ascii_lower
    (lit "La Mostra apre. Poi nulla. xx yy zz. Museo chiuso. altro testo lungo lungo")
    40 true
  = lit "La Mostra apre. Museo chiuso. Po...".
Proof. reflexivity. Qed.

Lemma chunk_text_identity_witness :
  len (lit "short text") <= 100
  /\ _chunk_text ascii_lower (lit "short text") 100 true = lit "short text".
Proof.
  split; [vm_compute; discriminate |].
  apply (chunk_text_identity ascii_lower (lit "short text") 100 true).
  vm_compute; discriminate.
Defined.

(** C1 as stated fails: under a budget of 4 the head and tail split of a text
    of 10 characters has 6 characters. *)
Lemma chunk_text_over_budget :
  4 <= 4 /\ ~ len (_chunk_text ascii_lower (lit "aaaaaaaaaa") 4 false) <= 4.
Proof. split; [lia |]. vm_compute. intros H. apply H. reflexivity. Qed.

Lemma chunk_text_size_witness :
  4 <= 4
  /\ (4 < len (lit "aaaaaaaaaa") -> false = false ->
      len (_chunk_text ascii_lower (lit "aaaaaaaaaa") 4 false)
      = 4 * 6 / 10 + 3 + 4 * 4 / 10).
Proof.
  split; [lia |]. intros Hlong Hflag.
  apply (chunk_text_size ascii_lower (lit "aaaaaaaaaa") 4 false);
    [lia | exact Hlong | exact Hflag].
Defined.

(** C5 as stated fails when the salient text is exactly as long as the budget:
    it is then cut to [budget - 3] characters. *)
Lemma salient_sentence_cut_at_budget :
  ~ (forall (lower : str -> str) (text : str) (budget : Z) (sentence : str),
        budget < len text ->
        len (important_text_of lower text) <= budget ->
        In sentence (split_dot_space text) ->
        is_important lower sentence = true ->
        substring sentence (_chunk_text lower text budget true)).
Proof.
  intros H.
  specialize (H ascii_lower (lit "mostra. xx") 6 (lit "mostra")).
  apply substring_contains in H.
  - vm_compute in H. discriminate.
  - vm_compute. reflexivity.
  - vm_compute. discriminate.
  - left. reflexivity.
  - reflexivity.
Qed.

Lemma salient_sentences_preserved_witness :
  7 < len (lit "mostra. xx")
  /\ substring (lit "mostra") (_chunk_text ascii_lower (lit "mostra. xx") 7 true).
Proof.
  split; [vm_compute; reflexivity |].
  apply (salient_sentences_preserved ascii_lower (lit "mostra. xx") 7 (lit "mostra")).
  - vm_compute. reflexivity.
  - vm_compute. reflexivity.
  - left. reflexivity.
  - reflexivity.
Defined.


(** ** The adapters *)

Lemma lookup_error_result_error (key : string) (msg : str) :
  error_result key msg !! "error" = Some (VStr msg).
Proof. unfold error_result. apply lookup_insert_eq. Qed.

Lemma lookup_error_result_usage (a : adapter) (msg : str) :
  error_result (usage_key a) msg !! usage_key a = Some (VInt 0).
Proof. destruct a; reflexivity. Qed.

Lemma sum_len_from (results : list str) (start : Z) :
  fold_left (fun acc r => acc + len r) results start = start + len (concat results).
Proof.
  revert start. induction results as [| r rest IH]; intros start; simpl.
  - unfold len. simpl. lia.
  - rewrite IH, len_app. lia.
Qed.

(** The sum of the lengths of the items is the number of characters of the
    items put together. *)
Lemma sum_len_concat (results : list str) : sum_len results = len (concat results).
Proof. unfold sum_len. rewrite sum_len_from. lia. Qed.

Lemma split_ws_from_spaces (s : str) :
  forallb is_space s = true -> split_ws_from [] s = [].
Proof.
  induction s as [| c s IH]; intros Hall; [reflexivity |].
  simpl in Hall. apply andb_true_iff in Hall as [Hc Hs].
  simpl. rewrite Hc. apply IH, Hs.
Qed.

Section AdapterProperties.

Variable lower : str -> str.
Variable world : World.

Lemma semantic_analysis_returns (query : str) (chunk_size : Z) (self : Self) :
  _semantic_analysis lower world query chunk_size self =
  (Returns (semantic_outcome lower world query chunk_size),
   log_call (CallGenerate (semantic_prompt query)) self).
Proof.
  unfold _semantic_analysis, semantic_outcome, try_except, bind, invoke, focus_of.
  destruct (generate_content world (semantic_prompt query)) as [text | msg];
    [| reflexivity].
  destruct query as [| c q]; [reflexivity |].
  destruct (split_ws (c :: q)); reflexivity.
Qed.

(** The loop over the rows of the graph query. *)
Lemma for_each_chunk_record (max_results chunk_size : Z)
    (rows : list collab_record) (self : Self) :
  for_each (chunk_record lower max_results chunk_size) rows self =
  match rows with
  | [] => (Returns [], self)
  | _ :: _ =>
      if max_results =? 0
      then (Raises (lit "integer division or modulo by zero"), self)
      else (Returns
              (List.map
                 (fun record =>
                    _chunk_text lower (artist_info_of record)
                      (chunk_size / max_results) true) rows), self)
  end.
Proof.
  induction rows as [| r rest IH]; [reflexivity |].
  cbn [for_each]. unfold bind at 1. unfold chunk_record at 1, floordiv, bind at 1.
  destruct (max_results =? 0) eqn:Hz; [reflexivity |].
  cbv beta iota delta [bind ret]. rewrite IH.
  destruct rest; reflexivity.
Qed.

(** The graph adapter: a failure to set the connections up or to open the
    session leaves the adapter as an exception; what happens after that is
    turned into a result. *)
Lemma graph_analysis_cases (query : str) (max_results chunk_size : Z) (self : Self) :
  _graph_analysis lower world query max_results chunk_size self =
  match _setup_connections world self with
  | (Raises msg, self1) => (Raises msg, self1)
  | (Returns _, self1) =>
      match driver_session world with
      | Raises msg => (Raises msg, log_call CallSession self1)
      | Returns _ =>
          (Returns (graph_outcome lower world max_results chunk_size),
           log_call (CallSessionRun (cypher_query_of max_results))
             (log_call CallSession self1))
      end
  end.
Proof.
  unfold _graph_analysis, graph_outcome. unfold bind at 1.
  destruct (_setup_connections world self) as [[[] | msg] self1]; [| reflexivity].
  unfold bind at 1, invoke at 1.
  destruct (driver_session world) as [[] | msg]; [| reflexivity].
  unfold try_except, bind at 1, invoke.
  destruct (session_run world (cypher_query_of max_results)) as [rows | msg];
    [| reflexivity].
  unfold bind. rewrite for_each_chunk_record.
  destruct rows as [| row rows]; [reflexivity |].
  destruct (max_results =? 0); reflexivity.
Qed.

Lemma temporal_analysis_cases (query date_range : str) (max_results chunk_size : Z)
    (self : Self) :
  _temporal_analysis world query date_range max_results chunk_size self =
  match _setup_connections world self with
  | (Raises msg, self1) => (Raises msg, self1)
  | (Returns _, self1) =>
      match conn_cursor world with
      | Raises msg => (Raises msg, log_call CallCursor self1)
      | Returns _ =>
          (Returns (temporal_outcome world date_range max_results),
           log_call
             (CallExecute
                (temporal_query_of (date_filter_of world date_range) max_results))
             (log_call CallCursor self1))
      end
  end.
Proof.
  unfold _temporal_analysis, temporal_outcome. unfold bind at 1.
  destruct (_setup_connections world self) as [[[] | msg] self1]; [| reflexivity].
  unfold bind at 1, invoke at 1.
  destruct (conn_cursor world) as [[] | msg]; [| reflexivity].
  unfold try_except, bind, invoke.
  destruct (cursor_execute_fetchall world
              (temporal_query_of (date_filter_of world date_range) max_results));
    reflexivity.
Qed.

Lemma semantic_outcome_shape (params : TriQueryParams) :
  adapter_result params Semantic
    (semantic_outcome lower world (query params) (chunk_size params)).
Proof.
  unfold semantic_outcome.
  destruct (generate_content world (semantic_prompt (query params)));
    [| exact (result_error params Semantic _)].
  destruct (query params) as [| c q] eqn:Hq.
  - rewrite <- Hq. exact (result_semantic params _ _).
  - destruct (split_ws (c :: q)); [exact (result_error params Semantic _) |].
    rewrite <- Hq. exact (result_semantic params _ _).
Qed.

Lemma graph_outcome_shape (params : TriQueryParams) :
  adapter_result params Graph
    (graph_outcome lower world (max_results params) (chunk_size params)).
Proof.
  unfold graph_outcome.
  destruct (session_run world (cypher_query_of (max_results params)))
    as [[| row rows] | msg];
    [exact (result_graph params _) | | exact (result_error params Graph _)].
  destruct (max_results params =? 0);
    [exact (result_error params Graph _) | exact (result_graph params _)].
Qed.

Lemma temporal_outcome_shape (params : TriQueryParams) :
  adapter_result params Temporal
    (temporal_outcome world (date_range params) (max_results params)).
Proof.
  unfold temporal_outcome.
  destruct (cursor_execute_fetchall world _);
    [exact (result_temporal params _) | exact (result_error params Temporal _)].
Qed.

(** Every result of an adapter has one of four forms. *)
Lemma run_adapter_shape (a : adapter) (params : TriQueryParams)
    (self self' : Self) (d : gmap string pyval) :
  run_adapter lower world a params self = (Returns d, self') ->
  adapter_result params a d.
Proof.
  destruct a; simpl.
  - rewrite semantic_analysis_returns. intros [= <- _].
    apply semantic_outcome_shape.
  - rewrite graph_analysis_cases.
    destruct (_setup_connections world self) as [[[] | msg] self1]; [| discriminate].
    destruct (driver_session world) as [[] | msg]; [| discriminate].
    intros [= <- _]. apply graph_outcome_shape.
  - rewrite temporal_analysis_cases.
    destruct (_setup_connections world self) as [[[] | msg] self1]; [| discriminate].
    destruct (conn_cursor world) as [[] | msg]; [| discriminate].
    intros [= <- _]. apply temporal_outcome_shape.
Qed.

End AdapterProperties.

(** ** The dictionaries of the adapters *)

Lemma is_error_error_result (key : string) (msg : str) :
  is_error (error_result key msg) = true.
Proof. unfold is_error. rewrite lookup_error_result_error. reflexivity. Qed.

Lemma is_error_semantic_dict (entities : list str) (query_type focus analysis : str)
    (tokens_used : Z) :
  is_error (semantic_dict entities query_type focus analysis tokens_used) = false.
Proof. reflexivity. Qed.

Lemma is_error_graph_dict (results : list str) (cypher_query : str) :
  is_error (graph_dict results cypher_query) = false.
Proof. reflexivity. Qed.

Lemma is_error_temporal_dict (results : list str) (date_range : str) :
  is_error (temporal_dict results date_range) = false.
Proof. reflexivity. Qed.

Lemma error_result_other_key (a : adapter) (msg : str) (key : string) :
  key <> "error" -> key <> usage_key a ->
  error_result (usage_key a) msg !! key = None.
Proof.
  intros H1 H2. unfold error_result.
  rewrite lookup_insert_ne by congruence.
  rewrite lookup_insert_ne by congruence.
  apply lookup_empty.
Qed.

Lemma dict_truthy_insert (key : string) (v : pyval) (d : gmap string pyval) :
  dict_truthy (Some (<[key := v]> d)) = true.
Proof.
  unfold dict_truthy. rewrite bool_decide_eq_false_2; [reflexivity |].
  apply insert_non_empty.
Qed.

Lemma adapter_result_truthy (params : TriQueryParams) (a : adapter)
    (d : gmap string pyval) :
  adapter_result params a d -> dict_truthy (Some d) = true.
Proof. destruct 1; apply dict_truthy_insert. Qed.

(** An error result carries no usage, whatever the adapter. *)
Lemma adapter_result_error_usage (params : TriQueryParams) (a : adapter)
    (d : gmap string pyval) :
  adapter_result params a d -> is_error d = true ->
  d !! usage_key a = Some (VInt 0).
Proof.
  destruct 1; intros He.
  - apply lookup_error_result_usage.
  - rewrite is_error_semantic_dict in He. discriminate.
  - rewrite is_error_graph_dict in He. discriminate.
  - rewrite is_error_temporal_dict in He. discriminate.
Qed.

(** The usage a result reports is the number of characters it accounts for. *)
Lemma adapter_result_usage (params : TriQueryParams) (a : adapter)
    (d : gmap string pyval) :
  adapter_result params a d ->
  exists z, accounted_chars (query params) a d = Some z
            /\ dict_get d (usage_key a) (VInt 0) = VInt z.
Proof.
  destruct 1 as [a msg | focus analysis | results | results].
  - exists 0. unfold accounted_chars, dict_get.
    rewrite is_error_error_result, lookup_error_result_usage. split; reflexivity.
  - exists (len (semantic_prompt (query params)) + len analysis).
    split; reflexivity.
  - exists (len (concat results)). split; [reflexivity |].
    rewrite <- sum_len_concat. reflexivity.
  - exists (len (concat results)). split; [reflexivity |].
    rewrite <- sum_len_concat. reflexivity.
Qed.

Lemma slice_to_take_any {A : Type} (s : list A) (j : Z) :
  0 <= j -> slice_to s j = take (Z.to_nat j) s.
Proof.
  intros Hj. destruct (Z.le_gt_cases j (len s)) as [Hle | Hgt].
  - apply slice_to_take. lia.
  - unfold slice_to, slice_index.
    destruct (Z.ltb_spec j 0); [lia |].
    unfold len in *. rewrite !take_ge by lia. reflexivity.
Qed.

(** ** The orchestrator *)

Lemma bind_returns {A B : Type} (m : M A) (k : A -> M B) (self self' : Self) (a : A) :
  m self = (Returns a, self') -> bind m k self = k a self'.
Proof. unfold bind. intros ->. reflexivity. Qed.

Lemma bind_raises {A B : Type} (m : M A) (k : A -> M B) (self self' : Self)
    (msg : str) :
  m self = (Raises msg, self') -> bind m k self = (Raises msg, self').
Proof. unfold bind. intros ->. reflexivity. Qed.

Section Summary.

Variable params : TriQueryParams.

Lemma semantic_part (r : option (gmap string pyval)) (self : Self) :
  shaped params Semantic r ->
  (if dict_truthy r then
     bind (format_first_100
             (default (VStr (lit "N/A")) (lookup_in r "analysis")))
       (fun shown => ret ([] ++ [semantic_label ++ shown]))
   else ret []) self
  = (Returns (semantic_fragment r), self).
Proof.
  destruct r as [d |]; [| reflexivity].
  intros Hd. rewrite (adapter_result_truthy _ _ _ Hd).
  inversion Hd as [a msg Ha Hmsg | focus analysis Ha Hdict | |]; subst.
  - unfold lookup_in, semantic_fragment.
    rewrite is_error_error_result.
    rewrite (error_result_other_key Semantic) by discriminate.
    unfold default, format_first_100, bind, ret. simpl. reflexivity.
  - unfold lookup_in, semantic_fragment.
    rewrite is_error_semantic_dict.
    change (semantic_dict [] (lit "ricerca") focus analysis
              (len (semantic_prompt (query params)) + len analysis) !! "analysis")
      with (Some (VStr analysis)).
    unfold default, format_first_100, bind, ret. simpl.
    rewrite slice_to_take_any by lia. reflexivity.
Qed.

Lemma count_part (a : adapter) (label suffix : str) (list_key : string)
    (raised : str) (parts : list str) (r : option (gmap string pyval)) (self : Self) :
  (a = Graph /\ list_key = "collaborations"
   \/ a = Temporal /\ list_key = "timeline") ->
  shaped params a r ->
  (if dict_truthy r && truthy (lookup_in r list_key) then
     match lookup_in r list_key with
     | Some v =>
         bind (len_of v)
           (fun n => ret (parts ++ [label ++ str_of_int n ++ suffix]))
     | None => raise raised
     end
   else ret parts) self
  = (Returns (parts ++ count_fragment label suffix list_key r), self).
Proof.
  intros Hkey Hd. destruct r as [d |];
    [| simpl; rewrite app_nil_r; reflexivity].
  simpl in Hd. rewrite (adapter_result_truthy _ _ _ Hd).
  unfold lookup_in, count_fragment.
  destruct Hd as [a msg | focus analysis | results | results].
  - rewrite is_error_error_result.
    rewrite error_result_other_key;
      [simpl; rewrite app_nil_r; reflexivity | |];
      destruct Hkey as [[-> ->] | [-> ->]]; discriminate.
  - destruct Hkey as [[Ha _] | [Ha _]]; discriminate.
  - destruct Hkey as [[_ ->] | [Ha _]]; [| discriminate].
    rewrite is_error_graph_dict.
    change (graph_dict results (cypher_query_of (max_results params))
              !! "collaborations")
      with (Some (VList results)).
    destruct results; simpl; [rewrite app_nil_r |]; reflexivity.
  - destruct Hkey as [[Ha _] | [_ ->]]; [discriminate |].
    rewrite is_error_temporal_dict.
    change (temporal_dict results (date_range params) !! "timeline")
      with (Some (VList results)).
    destruct results; simpl; [rewrite app_nil_r |]; reflexivity.
Qed.

(** STEP 4 never raises on the results of the adapters, and gives the
    fragments read off these results. *)
Lemma summary_parts_fragments
    (semantic_result graph_result temporal_result : option (gmap string pyval))
    (self : Self) :
  shaped params Semantic semantic_result ->
  shaped params Graph graph_result ->
  shaped params Temporal temporal_result ->
  summary_parts_of semantic_result graph_result temporal_result self
  = (Returns
       (semantic_fragment semantic_result
        ++ count_fragment network_label (lit " collaborazioni trovate")
             "collaborations" graph_result
        ++ count_fragment temporal_label (lit " anni analizzati")
             "timeline" temporal_result), self).
Proof.
  intros Hs Hg Ht. unfold summary_parts_of.
  rewrite (bind_returns _ _ _ _ _ (semantic_part _ self Hs)).
  rewrite (bind_returns _ _ _ _ _
             (count_part Graph network_label (lit " collaborazioni trovate")
                "collaborations" (lit "'collaborations'")
                (semantic_fragment semantic_result) _ self
                (or_introl (conj eq_refl eq_refl)) Hg)).
  rewrite (bind_returns _ _ _ _ _
             (count_part Temporal temporal_label (lit " anni analizzati")
                "timeline" (lit "'timeline'") _ _ self
                (or_intror (conj eq_refl eq_refl)) Ht)).
  unfold ret. rewrite <- app_assoc. reflexivity.
Qed.

End Summary.

Section OrchestratorProperties.

Variable lower : str -> str.
Variable world : World.

(** What [execute] returns, when it returns: a result for each adapter that
    is enabled, of one of the adapter's forms, its reported usage under the
    adapter's name, and the summary made of the fragments of the results. *)
Lemma execute_inv (params : TriQueryParams) (self self' : Self)
    (response : TriQueryResponse) :
  execute lower world params self = (Returns response, self') ->
  (forall a : adapter,
      match result_of a response with
      | None =>
          enabled a params = false
          /\ context_usage response !! system_name a = None
      | Some d =>
          enabled a params = true
          /\ adapter_result params a d
          /\ context_usage response !! system_name a
             = Some (dict_get d (usage_key a) (VInt 0))
      end)
  /\ combined_summary response = render_summary (summary_fragments response).
Proof.
  intros Hex. unfold execute in Hex.
  assert (Hsem : forall s d s1,
             _semantic_analysis lower world (query params) (chunk_size params) s
             = (Returns d, s1) -> adapter_result params Semantic d)
    by (intros s d s1; apply (run_adapter_shape lower world Semantic)).
  assert (Hgra : forall s d s1,
             _graph_analysis lower world (query params) (max_results params)
               (chunk_size params) s
             = (Returns d, s1) -> adapter_result params Graph d)
    by (intros s d s1; apply (run_adapter_shape lower world Graph)).
  assert (Htem : forall s d s1,
             _temporal_analysis world (query params) (date_range params)
               (max_results params) (chunk_size params) s
             = (Returns d, s1) -> adapter_result params Temporal d)
    by (intros s d s1; apply (run_adapter_shape lower world Temporal)).
  destruct (use_semantic params) eqn:Fs;
    destruct (use_graph params) eqn:Fg;
    destruct (use_dates params) eqn:Ft;
    cbv beta iota delta [bind ret] in Hex;
    repeat match type of Hex with
      | context [_semantic_analysis ?l ?w ?q ?c ?s] =>
          let E := fresh "E" in
          destruct (_semantic_analysis l w q c s) as [[? | ?] ?] eqn:E;
          [apply Hsem in E | discriminate Hex]
      | context [_graph_analysis ?l ?w ?q ?m ?c ?s] =>
          let E := fresh "E" in
          destruct (_graph_analysis l w q m c s) as [[? | ?] ?] eqn:E;
          [apply Hgra in E | discriminate Hex]
      | context [_temporal_analysis ?w ?q ?r ?m ?c ?s] =>
          let E := fresh "E" in
          destruct (_temporal_analysis w q r m c s) as [[? | ?] ?] eqn:E;
          [apply Htem in E | discriminate Hex]
      end;
    match type of Hex with
    | context [summary_parts_of ?a ?b ?c ?s] =>
        rewrite (summary_parts_fragments params a b c s) in Hex by (simpl; trivial)
    end;
    injection Hex as <- <-;
    (split; [intros [] | reflexivity]);
    cbn [result_of enabled system_name usage_key semantic_analysis graph_data
           temporal_data context_usage];
    repeat split; try assumption; try reflexivity.
Qed.

(** Setting the connections up: with both services reachable it succeeds,
    and it never removes a call from the log. *)
Lemma setup_connections_returns (self : Self) :
  graph_driver world = Returns tt -> pg_connect world = Returns tt ->
  exists self1,
    _setup_connections world self = (Returns tt, self1)
    /\ exists added, calls self1 = calls self ++ added.
Proof.
  intros Hg Hp. unfold _setup_connections, bind, get_self, invoke, ret,
    set_neo4j_driver, set_pg_conn.
  destruct self as [driver conn log].
  destruct driver as [[] |], conn as [[] |]; simpl; rewrite ?Hg, ?Hp; simpl;
    eexists; (split; [reflexivity |]); simpl.
  - exists []. rewrite app_nil_r. reflexivity.
  - exists [CallPgConnect]. reflexivity.
  - exists [CallGraphDriver]. reflexivity.
  - exists [CallGraphDriver; CallPgConnect]. rewrite <- app_assoc. reflexivity.
Qed.

(** A failure to connect to the relational store leaves
    [_setup_connections] as an exception. *)
Lemma setup_connections_pg_failure (self : Self) (msg : str) :
  graph_driver world = Returns tt -> pg_conn self = None ->
  pg_connect world = Raises msg ->
  fst (_setup_connections world self) = Raises msg.
Proof.
  intros Hg Hnone Hp. unfold _setup_connections, bind, get_self, invoke, ret,
    set_neo4j_driver, set_pg_conn.
  destruct self as [driver conn log]. simpl in Hnone. subst conn.
  destruct driver as [[] |]; simpl; rewrite ?Hg; simpl; rewrite Hp; reflexivity.
Qed.

(** An exception of [_setup_connections] goes through the graph adapter and
    the temporal adapter unchanged. *)
Lemma graph_analysis_setup_failure (query : str) (max_results chunk_size : Z)
    (self : Self) (msg : str) :
  fst (_setup_connections world self) = Raises msg ->
  fst (_graph_analysis lower world query max_results chunk_size self) = Raises msg.
Proof.
  intros H. rewrite graph_analysis_cases.
  destruct (_setup_connections world self) as [[[] | m] s]; simpl in H |- *;
    [discriminate | injection H as ->; reflexivity].
Qed.

Lemma temporal_analysis_setup_failure (query date_range : str)
    (max_results chunk_size : Z) (self : Self) (msg : str) :
  fst (_setup_connections world self) = Raises msg ->
  fst (_temporal_analysis world query date_range max_results chunk_size self)
  = Raises msg.
Proof.
  intros H. rewrite temporal_analysis_cases.
  destruct (_setup_connections world self) as [[[] | m] s]; simpl in H |- *;
    [discriminate | injection H as ->; reflexivity].
Qed.

(** Once the connections and the session are there, a failure of the graph
    query is turned into an error result. *)
Lemma graph_analysis_query_failure (query : str) (max_results chunk_size : Z)
    (self self1 : Self) (msg : str) :
  _setup_connections world self = (Returns tt, self1) ->
  driver_session world = Returns tt ->
  session_run world (cypher_query_of max_results) = Raises msg ->
  fst (_graph_analysis lower world query max_results chunk_size self)
  = Returns (error_result "char_used" msg).
Proof.
  intros Hs Hd Hr. rewrite graph_analysis_cases, Hs, Hd. simpl.
  unfold graph_outcome. rewrite Hr. reflexivity.
Qed.

End OrchestratorProperties.

(** ** The claims on the adapters and on the orchestrator *)

Section Claims.

Variable lower : str -> str.
Variable world : World.

(** C9.  Every result an adapter returns with its ["error"] key set carries
    zero usage: [tokens_used = 0] for the semantic adapter, [char_used = 0]
    for the graph adapter and the temporal adapter. *)
Theorem error_result_zero_usage (a : adapter) (params : TriQueryParams)
    (self self' : Self) (d : gmap string pyval) :
  run_adapter lower world a params self = (Returns d, self') ->
  is_Some (d !! "error") ->
  d !! usage_key a = Some (VInt 0).
Proof.
  intros Hrun [v Hv].
  apply (adapter_result_error_usage params).
  - exact (run_adapter_shape lower world a params self self' d Hrun).
  - unfold is_error. rewrite Hv. reflexivity.
Qed.

(** C10.  For a query that is not empty and made of whitespace only, the
    semantic adapter returns an error result with [tokens_used = 0]; when the
    generative service has answered, the error is the [IndexError] of
    [query.split()[0]]. *)
Theorem whitespace_query_semantic_error (query : str) (size : Z) (self : Self) :
  query <> [] ->
  forallb is_space query = true ->
  exists msg,
    _semantic_analysis lower world query size self
    = (Returns (error_result "tokens_used" msg),
       log_call (CallGenerate (semantic_prompt query)) self)
    /\ error_result "tokens_used" msg !! "error" = Some (VStr msg)
    /\ error_result "tokens_used" msg !! "tokens_used" = Some (VInt 0)
    /\ (forall text,
          generate_content world (semantic_prompt query) = Returns text ->
          msg = lit "list index out of range").
Proof.
  intros Hne Hspace. rewrite semantic_analysis_returns. unfold semantic_outcome.
  destruct (generate_content world (semantic_prompt query)) as [text | msg].
  - exists (lit "list index out of range").
    destruct query as [| c q]; [congruence |].
    unfold split_ws. rewrite (split_ws_from_spaces _ Hspace).
    repeat split; reflexivity.
  - exists msg. repeat split; try reflexivity. intros text Htext. discriminate.
Qed.

(** C2, as the code has it.  [execute] validates nothing.  With
    [max_results = 0] and [use_graph] set, the graph adapter sets its
    connections up and runs its query; [chunk_size // max_results] is reached
    for a returned row only, inside the [try] block, where the division by
    zero becomes an error result with [char_used = 0], and the request
    returns. *)
Theorem max_results_zero_not_validated (params : TriQueryParams) (self : Self) :
  max_results params = 0 ->
  use_graph params = true ->
  use_dates params = false ->
  graph_driver world = Returns tt ->
  pg_connect world = Returns tt ->
  driver_session world = Returns tt ->
  exists response self',
    execute lower world params self = (Returns response, self')
    /\ In (CallSessionRun (cypher_query_of 0)) (calls self')
    /\ graph_data response
       = Some (match session_run world (cypher_query_of 0) with
               | Raises msg => error_result "char_used" msg
               | Returns [] => graph_dict [] (cypher_query_of 0)
               | Returns (_ :: _) =>
                   error_result "char_used"
                     (lit "integer division or modulo by zero")
               end)
    /\ context_usage response !! "graph" = Some (VInt 0).
Proof.
  intros Hmr Fg Ft Hdriver Hpg Hsession.
  pose proof (semantic_outcome_shape lower world params) as Hsem.
  pose proof (graph_outcome_shape lower world params) as Hgra.
  assert (Hout : graph_outcome lower world (max_results params) (chunk_size params)
                 = match session_run world (cypher_query_of 0) with
                   | Raises msg => error_result "char_used" msg
                   | Returns [] => graph_dict [] (cypher_query_of 0)
                   | Returns (_ :: _) =>
                       error_result "char_used"
                         (lit "integer division or modulo by zero")
                   end).
  { rewrite Hmr. unfold graph_outcome.
    destruct (session_run world (cypher_query_of 0)) as [[| row rows] | msg];
      reflexivity. }
  assert (Husage : dict_get
                     (graph_outcome lower world (max_results params)
                        (chunk_size params)) "char_used" (VInt 0) = VInt 0).
  { rewrite Hout.
    destruct (session_run world (cypher_query_of 0)) as [[| row rows] | msg];
      reflexivity. }
  unfold execute. rewrite Fg, Ft.
  destruct (use_semantic params) eqn:Fs; cbv beta iota delta [bind ret].
  - rewrite semantic_analysis_returns, graph_analysis_cases.
    destruct (setup_connections_returns world
                (log_call (CallGenerate (semantic_prompt (query params))) self)
                Hdriver Hpg) as (self1 & -> & added & Hadd).
    rewrite Hsession.
    rewrite (summary_parts_fragments params) by (simpl; trivial).
    eexists. eexists. split; [reflexivity |].
    cbn [graph_data context_usage]. rewrite Hmr at 1.
    split; [simpl; apply in_or_app; right; left; reflexivity |].
    split; [rewrite Hout; reflexivity |].
    rewrite lookup_insert_eq, Husage. reflexivity.
  - rewrite graph_analysis_cases.
    destruct (setup_connections_returns world self Hdriver Hpg)
      as (self1 & -> & added & Hadd).
    rewrite Hsession.
    rewrite (summary_parts_fragments params) by (simpl; trivial).
    eexists. eexists. split; [reflexivity |].
    cbn [graph_data context_usage]. rewrite Hmr at 1.
    split; [simpl; apply in_or_app; right; left; reflexivity |].
    split; [rewrite Hout; reflexivity |].
    rewrite lookup_insert_eq, Husage. reflexivity.
Qed.

(** C4, as the code has it.  In what [execute] returns, an adapter that was
    not enabled has no result and no entry in [context_usage]; an enabled
    adapter has a result, and its entry is the number of characters the
    result accounts for: 0 for an error result, the length of the prompt plus
    the length of the chunked analysis for the semantic adapter, the total
    length of the returned items for the graph and temporal adapters. *)
Theorem context_usage_accounts (params : TriQueryParams) (self self' : Self)
    (response : TriQueryResponse) (a : adapter) :
  execute lower world params self = (Returns response, self') ->
  match result_of a response with
  | None =>
      enabled a params = false
      /\ context_usage response !! system_name a = None
  | Some d =>
      enabled a params = true
      /\ exists z,
           accounted_chars (query params) a d = Some z
           /\ context_usage response !! system_name a = Some (VInt z)
  end.
Proof.
  intros Hex. destruct (execute_inv lower world _ _ _ _ Hex) as [Hall _].
  specialize (Hall a). destruct (result_of a response) as [d |]; [| exact Hall].
  destruct Hall as (Hon & Hshape & Husage). split; [exact Hon |].
  destruct (adapter_result_usage params a d Hshape) as (z & Hz & Hget).
  exists z. split; [exact Hz |]. rewrite Husage, Hget. reflexivity.
Qed.

(** C6, as the code has it.  [combined_summary] joins with [" | "] the
    fragments of the results: one for every semantic result, which shows
    ["N/A"] when the result is an error; one for a graph result and one for a
    temporal result that is not an error and whose list is not empty.  So an
    enabled semantic adapter always contributes the first fragment, and the
    summary is ["Nessun sistema attivato"] exactly when there is no
    fragment. *)
Theorem combined_summary_fragments (params : TriQueryParams) (self self' : Self)
    (response : TriQueryResponse) :
  execute lower world params self = (Returns response, self') ->
  combined_summary response
  = match summary_fragments response with
    | [] => lit "Nessun sistema attivato"
    | part :: parts => join (lit " | ") (part :: parts)
    end
  /\ (use_semantic params = true ->
      exists shown parts,
        summary_fragments response = (semantic_label ++ shown) :: parts).
Proof.
  intros Hex. destruct (execute_inv lower world _ _ _ _ Hex) as [Hall Hsum].
  split.
  - rewrite Hsum. unfold render_summary.
    destruct (summary_fragments response); reflexivity.
  - intros Fs. specialize (Hall Semantic). simpl in Hall.
    unfold summary_fragments.
    destruct (semantic_analysis response) as [d |];
      [| destruct Hall; congruence].
    destruct Hall as (_ & Hshape & _).
    inversion Hshape as [a msg Ha Hd | focus analysis Ha Hd | |]; subst.
    + unfold semantic_fragment. rewrite is_error_error_result.
      eexists. eexists. reflexivity.
    + unfold semantic_fragment. rewrite is_error_semantic_dict.
      eexists. eexists. reflexivity.
Qed.

(** C7, as the code has it.  ["last_year"] restricts the publication date to
    the 365 days before the day the adapter reads on the clock; the one value
    ["2020-2024"] restricts it from January 1, 2020 inclusive to January 1,
    2025 exclusive; every other value, ["all"] and the other ranges of years
    included, gives the date-not-null filter. *)
Theorem date_filter_resolution (date_range : str) :
  Some (date_filter_of world date_range)
  = sql_of_restriction (resolve_date_range_code (clock_today world) date_range).
Proof.
  unfold date_filter_of, resolve_date_range_code.
  destruct (bool_decide (date_range = lit "last_year")); [reflexivity |].
  destruct (bool_decide (date_range = lit "2020-2024")); reflexivity.
Qed.

(** The filter is what the query sent to the relational store carries. *)
Lemma temporal_query_sent (query date_range : str) (max_results size : Z)
    (self self1 : Self) :
  _setup_connections world self = (Returns tt, self1) ->
  conn_cursor world = Returns tt ->
  calls (snd (_temporal_analysis world query date_range max_results size self))
  = calls self1
    ++ [CallCursor;
        CallExecute (temporal_query_of (date_filter_of world date_range) max_results)].
Proof.
  intros Hs Hc. rewrite temporal_analysis_cases, Hs, Hc. simpl.
  rewrite <- app_assoc. reflexivity.
Qed.

(** The semantic adapter never raises. *)
Lemma semantic_analysis_never_raises (query : str) (size : Z) (self : Self) :
  exists d, fst (_semantic_analysis lower world query size self) = Returns d.
Proof. rewrite semantic_analysis_returns. eexists. reflexivity. Qed.

End Claims.

(** ** Concrete runs *)

Lemma error_result_zero_usage_witness :
  semantic_outcome ascii_lower world_model_down (lit "x") 2000 !! "tokens_used"
  = Some (VInt 0).
Proof.
  apply (error_result_zero_usage ascii_lower world_model_down Semantic
           semantic_only fresh_self
           (log_call (CallGenerate (semantic_prompt (lit "x"))) fresh_self)).
  - vm_compute. reflexivity.
  - vm_compute. eexists. reflexivity.
Defined.

Lemma whitespace_query_semantic_error_witness :
  exists msg,
    fst (_semantic_analysis ascii_lower sample_world (lit "  ") 200 fresh_self)
    = Returns (error_result "tokens_used" msg)
    /\ msg = lit "list index out of range".
Proof.
  destruct (whitespace_query_semantic_error ascii_lower sample_world
              (lit "  ") 200 fresh_self) as (msg & Hrun & _ & _ & Hmsg).
  - discriminate.
  - reflexivity.
  - exists msg. split.
    + rewrite Hrun. reflexivity.
    + apply (Hmsg (lit "ok")). reflexivity.
Defined.

(** C2 as stated fails: with [max_results = 0] and [use_graph] set, [execute]
    does not raise, and the graph store has been called. *)
Lemma execute_without_validation :
  ~ (forall (lower : str -> str) (world : World) (params : TriQueryParams)
            (self : Self),
        chunk_size params <= 0 \/ max_results params <= 0 ->
        exists msg self',
          execute lower world params self = (Raises msg, self')
          /\ calls self' = calls self).
Proof.
  intros H.
  destruct (H ascii_lower sample_world graph_only_zero fresh_self)
    as (msg & self' & Hrun & _).
  - right. vm_compute. discriminate.
  - vm_compute in Hrun. discriminate Hrun.
Qed.

Lemma max_results_zero_not_validated_witness :
  exists response self',
    execute ascii_lower sample_world graph_only_zero fresh_self
    = (Returns response, self')
    /\ graph_data response
       = Some (error_result "char_used" (lit "integer division or modulo by zero"))
    /\ context_usage response !! "graph" = Some (VInt 0).
Proof.
  destruct (max_results_zero_not_validated ascii_lower sample_world
              graph_only_zero fresh_self)
    as (response & self' & Hrun & _ & Hdata & Husage);
    try reflexivity.
  exists response, self'. repeat split; assumption.
Defined.

(** The same request when the graph store has no row: the division is not
    reached. *)
Example max_results_zero_no_rows :
  match execute ascii_lower world_no_rows graph_only_zero fresh_self with
  | (Returns response, self') =>
      lookup_in (graph_data response) "collaborations" = Some (VList [])
      /\ lookup_in (graph_data response) "error" = None
      /\ calls self'
         = [CallGraphDriver; CallPgConnect; CallSession;
            CallSessionRun (cypher_query_of 0)]
  | (Raises _, _) => False
  end.
Proof. vm_compute. repeat split; reflexivity. Qed.

(** C3 fails on the code: with the relational store refusing the connection,
    the exception of [psycopg2.connect] leaves the graph adapter, the temporal
    adapter and [execute]. *)
Theorem connection_failure_leaves_adapter :
  fst (_graph_analysis ascii_lower world_pg_down (lit "x") 5 200 fresh_self)
  = Raises (lit "connection refused")
  /\ fst (_temporal_analysis world_pg_down (lit "x") (lit "all") 5 200 fresh_self)
     = Raises (lit "connection refused")
  /\ fst (execute ascii_lower world_pg_down semantic_and_graph fresh_self)
     = Raises (lit "connection refused").
Proof. repeat split; vm_compute; reflexivity. Qed.

(** A failure of the query itself is caught. *)
Example graph_query_failure_caught :
  fst (_graph_analysis ascii_lower world_graph_query_fails (lit "x") 5 200 fresh_self)
  = Returns (error_result "char_used" (lit "syntax error")).
Proof. vm_compute. reflexivity. Qed.

(** C4 as stated fails: the entry of the semantic adapter counts the prompt as
    well as the analysis. *)
Lemma context_usage_counts_prompt :
  ~ (forall (lower : str -> str) (world : World) (params : TriQueryParams)
            (self self' : Self) (response : TriQueryResponse) (analysis : str),
        execute lower world params self = (Returns response, self') ->
        lookup_in (semantic_analysis response) "analysis" = Some (VStr analysis) ->
        context_usage response !! "semantic" = Some (VInt (len analysis))).
Proof.
  intros H.
  destruct (execute ascii_lower sample_world semantic_only fresh_self)
    as [[response | msg] self'] eqn:Hrun.
  - specialize (H ascii_lower sample_world semantic_only fresh_self self'
                  response (lit "ok") Hrun).
    vm_compute in Hrun. injection Hrun as <- <-.
    vm_compute in H. specialize (H eq_refl). discriminate H.
  - vm_compute in Hrun. discriminate Hrun.
Qed.

Example context_usage_semantic_value :
  exists response self',
    execute ascii_lower sample_world semantic_only fresh_self
    = (Returns response, self')
    /\ lookup_in (semantic_analysis response) "analysis" = Some (VStr (lit "ok"))
    /\ context_usage response !! "semantic" = Some (VInt 262)
    /\ context_usage response !! "graph" = None.
Proof. eexists. eexists. vm_compute. repeat split; reflexivity. Qed.

Lemma context_usage_accounts_witness :
  match execute ascii_lower sample_world semantic_only fresh_self with
  | (Returns response, _) =>
      match semantic_analysis response with
      | Some d =>
          exists z,
            accounted_chars (lit "x") Semantic d = Some z
            /\ context_usage response !! "semantic" = Some (VInt z)
      | None => False
      end
  | (Raises _, _) => False
  end.
Proof.
  destruct (execute ascii_lower sample_world semantic_only fresh_self)
    as [[response | msg] self'] eqn:Hrun.
  - pose proof (context_usage_accounts ascii_lower sample_world semantic_only
                  fresh_self self' response Semantic Hrun) as H.
    simpl in H. destruct (semantic_analysis response) as [d |].
    + destruct H as [_ H]. exact H.
    + destruct H as [H _]. discriminate H.
  - vm_compute in Hrun. discriminate Hrun.
Defined.

(** C6 as stated fails: the error result of the semantic adapter contributes
    its fragment. *)
Lemma summary_of_semantic_error :
  ~ (forall (lower : str -> str) (world : World) (params : TriQueryParams)
            (self self' : Self) (response : TriQueryResponse)
            (d : gmap string pyval),
        execute lower world params self = (Returns response, self') ->
        semantic_analysis response = Some d ->
        is_Some (d !! "error") ->
        graph_data response = None ->
        temporal_data response = None ->
        combined_summary response = lit "Nessun sistema attivato").
Proof.
  intros H.
  destruct (execute ascii_lower world_model_down semantic_only fresh_self)
    as [[response | msg] self'] eqn:Hrun.
  - specialize (H ascii_lower world_model_down semantic_only fresh_self self'
                  response (error_result "tokens_used" (lit "quota exceeded")) Hrun).
    vm_compute in Hrun. injection Hrun as <- <-.
    assert (Hsum : combined_summary
                     {| r_query := lit "x";
                        systems_used := [lit "semantic"];
                        semantic_analysis :=
                          Some (error_result "tokens_used" (lit "quota exceeded"));
                        graph_data := None;
                        temporal_data := None;
                        combined_summary := semantic_label ++ lit "N/A";
                        context_usage := <["semantic" := VInt 0]> ∅;
                        chunking_applied := (2000, 10, 0) |}
                   = lit "Nessun sistema attivato").
    { apply H.
      - vm_compute. reflexivity.
      - vm_compute. eexists. reflexivity.
      - reflexivity.
      - reflexivity. }
    vm_compute in Hsum. discriminate Hsum.
  - vm_compute in Hrun. discriminate Hrun.
Qed.

Example semantic_error_summary_value :
  exists response self',
    execute ascii_lower world_model_down semantic_only fresh_self
    = (Returns response, self')
    /\ is_Some (lookup_in (semantic_analysis response) "error")
    /\ combined_summary response = semantic_label ++ lit "N/A".
Proof.
  eexists. eexists. vm_compute. repeat split; try reflexivity.
  eexists. reflexivity.
Qed.

Lemma combined_summary_fragments_witness :
  match execute ascii_lower world_model_down semantic_only fresh_self with
  | (Returns response, _) =>
      exists shown parts,
        summary_fragments response = (semantic_label ++ shown) :: parts
  | (Raises _, _) => False
  end.
Proof.
  destruct (execute ascii_lower world_model_down semantic_only fresh_self)
    as [[response | msg] self'] eqn:Hrun.
  - destruct (combined_summary_fragments ascii_lower world_model_down
                semantic_only fresh_self self' response Hrun) as [_ H].
    apply H. reflexivity.
  - vm_compute in Hrun. discriminate Hrun.
Defined.

(** C7 as stated fails: a range of years other than ["2020-2024"] is not
    resolved to its bounds, and ["all"] is given the date-not-null filter. *)
Lemma date_range_not_resolved :
  ~ (forall (world : World) (date_range : str),
        Some (date_filter_of world date_range)
        = sql_of_restriction
            (resolve_date_range_spec (clock_today world) date_range)).
Proof.
  intros H. specialize (H sample_world (lit "2021-2023")).
  vm_compute in H. discriminate H.
Qed.

Example date_filter_all :
  date_filter_of sample_world (lit "all") = lit "published_date IS NOT NULL"
  /\ sql_of_restriction (resolve_date_range_spec 739924 (lit "all")) = None.
Proof. split; reflexivity. Qed.

Example date_filter_other_range :
  date_filter_of sample_world (lit "2021-2023") = lit "published_date IS NOT NULL"
  /\ sql_of_restriction (resolve_date_range_spec 739924 (lit "2021-2023"))
     = Some (lit "published_date >= '2021-01-01' AND published_date < '2024-01-01'").
Proof. split; reflexivity. Qed.

Example date_filter_known_range :
  date_filter_of sample_world (lit "2020-2024")
  = lit "published_date >= '2020-01-01' AND published_date < '2025-01-01'".
Proof. reflexivity. Qed.

(** November 4, 2026 is day 739924; 365 days before is November 4, 2025. *)
Example date_filter_last_year :
  date_filter_of sample_world (lit "last_year")
  = lit "published_date >= '2025-11-04'".
Proof. reflexivity. Qed.

Example strftime_leap_year :
  strftime_ymd (739251 - 365) = lit "2024-01-01"
  /\ strftime_ymd 730179 = lit "2000-02-29".
Proof. split; reflexivity. Qed.

Example semantic_prompt_length : len (semantic_prompt []) = 259.
Proof. reflexivity. Qed.

(** Scenario A of the specification. *)
Example scenario_a :
  exists response self',
    execute ascii_lower sample_world
      (request (lit "Biennale di Venezia") true false true 200 5 (lit "2020-2024"))
      fresh_self
    = (Returns response, self')
    /\ systems_used response = [lit "semantic"; lit "temporal"]
    /\ graph_data response = None
    /\ lookup_in (temporal_data response) "timeline"
       = Some (VList [lit "2024: 120 articoli, 30 eventi"])
    /\ lookup_in (semantic_analysis response) "focus" = Some (VStr (lit "Biennale")).
Proof. eexists. eexists. vm_compute. repeat split; reflexivity. Qed.

(** * Further properties of the code *)

(** ** The chunker on texts of one kind of sentence, and on small budgets *)

Lemma filter_all_true {A : Type} (f : A -> bool) (l : list A) :
  forallb f l = true -> List.filter f l = l.
Proof.
  induction l as [| x l IH]; simpl; [reflexivity |].
  intros H. apply andb_true_iff in H as [Hx Hl]. rewrite Hx, IH by exact Hl.
  reflexivity.
Qed.

Lemma filter_all_false {A : Type} (f : A -> bool) (l : list A) :
  forallb (fun x => negb (f x)) l = true -> List.filter f l = [].
Proof.
  induction l as [| x l IH]; simpl; [reflexivity |].
  intros H. apply andb_true_iff in H as [Hx Hl].
  apply negb_true_iff in Hx. rewrite Hx. apply IH, Hl.
Qed.

Lemma slice_from_zero {A : Type} (s : list A) : slice_from s 0 = s.
Proof.
  unfold slice_from, slice_index. change (0 <? 0) with false. cbv iota.
  rewrite Z.min_l by apply len_nonneg. reflexivity.
Qed.

Section ChunkerEdges.

Variable lower : str -> str.

Lemma important_text_all_salient (text : str) :
  forallb (is_important lower) (split_dot_space text) = true ->
  important_text_of lower text = text.
Proof.
  intros H. rewrite important_text_join, filter_all_true by exact H.
  apply join_split_dot_space.
Qed.

Lemma texts_none_salient (text : str) :
  forallb (fun s => negb (is_important lower s)) (split_dot_space text) = true ->
  important_text_of lower text = [] /\ regular_text_of lower text = text.
Proof.
  intros H. unfold important_text_of, regular_text_of.
  rewrite classify_filter. simpl.
  rewrite filter_all_false by exact H.
  rewrite filter_all_true by exact H.
  split; [reflexivity | apply join_split_dot_space].
Qed.

(** X1.  When every sentence of a text longer than the budget is salient, smart
    chunking keeps the first [budget - 3] characters of the text and appends
    ["..."]: the output has exactly [budget] characters. *)
Theorem chunk_text_all_salient (text : str) (budget : Z) :
  3 <= budget -> budget < len text ->
  forallb (is_important lower) (split_dot_space text) = true ->
  _chunk_text lower text budget true
  = take (Z.to_nat (budget - 3)) text ++ lit "..."
  /\ len (_chunk_text lower text budget true) = budget.
Proof.
  intros Hb Hlong Hall.
  assert (Hout : _chunk_text lower text budget true
                 = take (Z.to_nat (budget - 3)) text ++ lit "...").
  { unfold _chunk_text.
    destruct (Z.leb_spec (len text) budget); [lia |]. simpl negb. cbv iota.
    rewrite (important_text_all_salient text Hall).
    destruct (Z.geb_spec (len text) budget); [| lia].
    rewrite slice_to_take by lia. reflexivity. }
  split; [exact Hout |]. rewrite Hout.
  unfold len in *. rewrite length_app, length_take.
  change (length (lit "...")) with 3%nat. lia.
Qed.

(** X2.  When no sentence of a text longer than a positive budget is salient,
    smart chunking returns [". "], a part of the text and ["..."].  With a
    budget of at least 10 the part is the first [budget - 10] characters and
    the output has [budget - 5] characters; with a smaller budget the part is
    the text without its last [10 - budget] characters, however long. *)
Theorem chunk_text_none_salient (text : str) (budget : Z) :
  0 < budget -> budget < len text ->
  forallb (fun s => negb (is_important lower s)) (split_dot_space text) = true ->
  (10 <= budget ->
   _chunk_text lower text budget true
   = lit ". " ++ take (Z.to_nat (budget - 10)) text ++ lit "..."
   /\ len (_chunk_text lower text budget true) = budget - 5)
  /\ (budget < 10 ->
      _chunk_text lower text budget true
      = lit ". " ++ take (length text - Z.to_nat (10 - budget)) text ++ lit "..."
      /\ len (_chunk_text lower text budget true)
         = Z.max 0 (len text + budget - 10) + 5).
Proof.
  intros Hb Hlong Hnone.
  destruct (texts_none_salient text Hnone) as [Himp Hreg].
  assert (Hout : _chunk_text lower text budget true
                 = lit ". " ++ slice_to text (budget - 10) ++ lit "...").
  { unfold _chunk_text.
    destruct (Z.leb_spec (len text) budget); [lia |]. simpl negb. cbv iota.
    rewrite Himp, Hreg. change (len []) with 0.
    destruct (Z.geb_spec 0 budget); [lia |].
    destruct (Z.leb_spec (len text) (budget - 0 - 10)); [lia |].
    replace (budget - 0 - 10) with (budget - 10) by lia. reflexivity. }
  rewrite Hout. split; intros Hcase.
  - rewrite slice_to_take by lia. split; [reflexivity |].
    unfold len in *. rewrite !length_app, length_take.
    change (length (lit ". ")) with 2%nat.
    change (length (lit "...")) with 3%nat. lia.
  - assert (Hslice : slice_to text (budget - 10)
                     = take (length text - Z.to_nat (10 - budget)) text).
    { unfold slice_to, slice_index.
      destruct (Z.ltb_spec (budget - 10) 0); [| lia].
      f_equal. unfold len. lia. }
    rewrite Hslice. split; [reflexivity |].
    unfold len in *. rewrite !length_app, length_take.
    change (length (lit ". ")) with 2%nat.
    change (length (lit "...")) with 3%nat. lia.
Qed.

(** X3.  With a budget of 0 or less, smart chunking of a text without any salient
    sentence returns ["..."], also for the empty text under a negative
    budget. *)
Theorem chunk_text_no_budget (text : str) (budget : Z) :
  budget <= 0 -> budget < len text ->
  forallb (fun s => negb (is_important lower s)) (split_dot_space text) = true ->
  _chunk_text lower text budget true = lit "...".
Proof.
  intros Hb Hlong Hnone.
  destruct (texts_none_salient text Hnone) as [Himp _].
  unfold _chunk_text.
  destruct (Z.leb_spec (len text) budget); [lia |]. simpl negb. cbv iota.
  rewrite Himp. change (len []) with 0.
  destruct (Z.geb_spec 0 budget); [| lia].
  unfold slice_to. rewrite take_nil. reflexivity.
Qed.

(** X4.  Under a budget of 0, 1 or 2 the head and tail split of a longer text
    returns the whole text after the head and the marker: the slice
    [text[-0:]] is the text itself. *)
Theorem chunk_text_plain_tiny_budget (text : str) (budget : Z) :
  0 <= budget <= 2 -> budget < len text ->
  _chunk_text lower text budget false
  = take (Z.to_nat (budget * 6 / 10)) text ++ lit "..." ++ text
  /\ len text + 3 <= len (_chunk_text lower text budget false).
Proof.
  intros Hb Hlong.
  assert (Hout : _chunk_text lower text budget false
                 = take (Z.to_nat (budget * 6 / 10)) text ++ lit "..." ++ text).
  { unfold _chunk_text.
    destruct (Z.leb_spec (len text) budget); [lia |]. simpl negb. cbv iota.
    unfold first_part_of, last_part_of.
    rewrite !Z.quot_div_nonneg by lia.
    assert (Hlast : budget * 4 / 10 = 0) by (apply Z.div_small; lia).
    assert (Hfirst : 0 <= budget * 6 / 10 <= budget)
      by (split; [apply Z.div_pos; lia | apply Z.div_le_upper_bound; lia]).
    rewrite Hlast, slice_to_take by lia.
    change (- 0) with 0. rewrite slice_from_zero. reflexivity. }
  split; [exact Hout |]. rewrite Hout.
  rewrite !len_app. change (len (lit "...")) with 3.
  pose proof (len_nonneg (take (Z.to_nat (budget * 6 / 10)) text)). lia.
Qed.

End ChunkerEdges.

Lemma chunk_text_all_salient_witness :
  3 <= 10
  /\ _chunk_text ascii_lower (lit "Mostra a Roma. Museo chiuso") 10 true
     = lit "Mostra ...".
Proof.
  split; [lia |].
  apply (chunk_text_all_salient ascii_lower (lit "Mostra a Roma. Museo chiuso") 10).
  - lia.
  - vm_compute. reflexivity.
  - vm_compute. reflexivity.
Defined.

Lemma chunk_text_none_salient_witness :
  _chunk_text ascii_lower (lit "aaaaaaaaaaaaaaaaaaaaaaaa") 4 true
  = lit ". " ++ take (24 - 6) (lit "aaaaaaaaaaaaaaaaaaaaaaaa") ++ lit "...".
Proof.
  apply (chunk_text_none_salient ascii_lower (lit "aaaaaaaaaaaaaaaaaaaaaaaa") 4).
  - lia.
  - vm_compute. reflexivity.
  - vm_compute. reflexivity.
  - lia.
Defined.

Lemma chunk_text_no_budget_witness :
  _chunk_text ascii_lower [] (-1) true = lit "...".
Proof.
  apply (chunk_text_no_budget ascii_lower [] (-1)).
  - lia.
  - vm_compute. reflexivity.
  - vm_compute. reflexivity.
Defined.

Lemma chunk_text_plain_tiny_budget_witness :
  _chunk_text ascii_lower (lit "abcdef") 2 false = lit "a...abcdef".
Proof.
  apply (chunk_text_plain_tiny_budget ascii_lower (lit "abcdef") 2).
  - lia.
  - vm_compute. reflexivity.
Defined.

(** ** The adapters and the connections *)

Lemma split_ws_from_head (s cur : str) :
  forallb (fun c => negb (is_space c)) cur = true ->
  match split_ws_from cur s with
  | [] => cur = [] /\ forallb is_space s = true
  | t :: _ =>
      exists tok rest,
        t = cur ++ tok
        /\ forallb (fun c => negb (is_space c)) tok = true
        /\ (rest = [] \/ exists c r, rest = c :: r /\ is_space c = true)
        /\ (cur = []
            /\ tok <> []
            /\ (exists ws, forallb is_space ws = true /\ s = ws ++ tok ++ rest)
            \/ cur <> [] /\ s = tok ++ rest)
  end.
Proof.
  revert cur. induction s as [| c s IH]; intros cur Hcur.
  - destruct cur as [| a cur]; simpl; [split; reflexivity |].
    exists [], []. rewrite app_nil_r.
    repeat split; [left; reflexivity | right; split; [discriminate | reflexivity]].
  - simpl. destruct (is_space c) eqn:Hc.
    + destruct cur as [| a cur].
      * specialize (IH [] eq_refl).
        destruct (split_ws_from [] s) as [| t ts].
        -- destruct IH as [_ Hs]. simpl. rewrite Hs. split; reflexivity.
        -- destruct IH as (tok & rest & Ht & Htok & Hrest & Hcase).
           exists tok, rest. repeat split; try assumption.
           left. destruct Hcase as [(_ & Hne & ws & Hws & Hs) | [Hne _]];
             [| congruence].
           repeat split; [exact Hne |].
           exists (c :: ws). simpl. rewrite Hc, Hws, Hs. split; reflexivity.
      * exists [], (c :: s). rewrite app_nil_r.
        repeat split; [right; exists c, s; split; [reflexivity | exact Hc] |].
        right. split; [discriminate | reflexivity].
    + assert (Hcur' : forallb (fun c => negb (is_space c)) (cur ++ [c]) = true).
      { rewrite forallb_app, Hcur. simpl. rewrite Hc. reflexivity. }
      specialize (IH (cur ++ [c]) Hcur').
      destruct (split_ws_from (cur ++ [c]) s) as [| t ts].
      * destruct IH as [Hnil _]. destruct cur; discriminate.
      * destruct IH as (tok & rest & Ht & Htok & Hrest & Hcase).
        destruct Hcase as [(Hnil & _) | [_ Hs]]; [destruct cur; discriminate |].
        exists (c :: tok), rest. repeat split.
        -- rewrite Ht, <- app_assoc. reflexivity.
        -- simpl. rewrite Hc. exact Htok.
        -- exact Hrest.
        -- destruct cur as [| a cur].
           ++ left. repeat split; [discriminate |].
              exists []. simpl. rewrite Hs. split; reflexivity.
           ++ right. split; [discriminate |]. simpl. rewrite Hs. reflexivity.
Qed.

Lemma len_semantic_prompt (query : str) :
  len (semantic_prompt query) = 259 + len query.
Proof.
  unfold semantic_prompt. rewrite !len_app.
  unfold len. simpl length. lia.
Qed.

(** A number is printed on at least one character. *)
Lemma len_str_of_int (z : Z) : 1 <= len (str_of_int z).
Proof.
  unfold str_of_int, len, lit. rewrite length_map.
  destruct (Z.to_int z) as [d | d]; destruct d; simpl; lia.
Qed.

Lemma lookup_graph_dict_total (results : list str) (cypher_query : str) :
  graph_dict results cypher_query !! "total_found" = Some (VInt (len results)).
Proof. reflexivity. Qed.

Lemma lookup_temporal_dict_total (results : list str) (range : str) :
  temporal_dict results range !! "total_years" = Some (VInt (len results)).
Proof. reflexivity. Qed.

Section AdapterExtras.

Variable lower : str -> str.
Variable world : World.

(** X5.  The semantic adapter never raises, whatever the generative service does;
    it makes one call, to that service, and leaves the connections of the
    tool as they are; a failure of the service is reported in the result,
    with its message and no usage. *)
Theorem semantic_analysis_one_call (query : str) (size : Z) (self : Self) :
  exists d self',
    _semantic_analysis lower world query size self = (Returns d, self')
    /\ calls self' = calls self ++ [CallGenerate (semantic_prompt query)]
    /\ neo4j_driver self' = neo4j_driver self
    /\ pg_conn self' = pg_conn self
    /\ (forall msg,
          generate_content world (semantic_prompt query) = Raises msg ->
          d !! "error" = Some (VStr msg)
          /\ d !! "tokens_used" = Some (VInt 0)).
Proof.
  rewrite semantic_analysis_returns. eexists. eexists.
  split; [reflexivity |]. repeat split.
  - unfold semantic_outcome. rewrite H. apply lookup_error_result_error.
  - unfold semantic_outcome. rewrite H. reflexivity.
Qed.

(** X6.  For a query with a character that is not whitespace, and an answer of the
    generative service, the result has no error and its focus is the first
    word of the query: what follows the leading whitespace, up to the next
    whitespace or the end. *)
Theorem semantic_focus_first_word (query : str) (size : Z) (self : Self)
    (text : str) :
  generate_content world (semantic_prompt query) = Returns text ->
  existsb (fun c => negb (is_space c)) query = true ->
  exists d ws token rest,
    fst (_semantic_analysis lower world query size self) = Returns d
    /\ d !! "error" = None
    /\ d !! "focus" = Some (VStr token)
    /\ query = ws ++ token ++ rest
    /\ forallb is_space ws = true
    /\ token <> []
    /\ forallb (fun c => negb (is_space c)) token = true
    /\ (rest = [] \/ exists c r, rest = c :: r /\ is_space c = true).
Proof.
  intros Hgen Hword. rewrite semantic_analysis_returns.
  unfold semantic_outcome. rewrite Hgen.
  destruct query as [| c q]; [discriminate |].
  pose proof (split_ws_from_head (c :: q) [] eq_refl) as Hhead.
  unfold split_ws. destruct (split_ws_from [] (c :: q)) as [| t ts].
  - destruct Hhead as [_ Hall]. exfalso.
    apply existsb_exists in Hword as (x & Hin & Hx).
    rewrite forallb_forall in Hall. rewrite (Hall x Hin) in Hx. discriminate.
  - destruct Hhead as (tok & rest & Ht & Htok & Hrest & Hcase).
    destruct Hcase as [(_ & Hne & ws & Hws & Hq) | [Hne _]]; [| congruence].
    simpl in Ht. subst t.
    exists (semantic_dict [] (lit "ricerca") tok
              (_chunk_text lower text size true)
              (len (semantic_prompt (c :: q))
               + len (_chunk_text lower text size true))), ws, tok, rest.
    repeat split; assumption.
Qed.

(** X7.  When the semantic adapter succeeds, its analysis is the answer of the
    service chunked with [smart_chunking = True], and [tokens_used] counts the
    259 characters of the prompt around the query, the query and the
    analysis. *)
Theorem semantic_usage_counts_prompt (query : str) (size : Z) (self : Self)
    (d : gmap string pyval) (text : str) :
  generate_content world (semantic_prompt query) = Returns text ->
  fst (_semantic_analysis lower world query size self) = Returns d ->
  d !! "error" = None ->
  d !! "analysis" = Some (VStr (_chunk_text lower text size true))
  /\ d !! "tokens_used"
     = Some (VInt (259 + len query + len (_chunk_text lower text size true))).
Proof.
  intros Hgen Hrun Hok. rewrite semantic_analysis_returns in Hrun.
  simpl in Hrun. injection Hrun as <-.
  unfold semantic_outcome in *. rewrite Hgen in *.
  rewrite <- len_semantic_prompt.
  destruct query as [| c q]; [split; reflexivity |].
  destruct (split_ws (c :: q)); [| split; reflexivity].
  rewrite lookup_error_result_error in Hok. discriminate.
Qed.

(** X8.  Setting the connections up a second time, after it has succeeded, makes
    no call and changes nothing; the first time, a call is made for a
    connection that is missing only. *)
Theorem setup_connections_once (self self1 : Self) :
  _setup_connections world self = (Returns tt, self1) ->
  _setup_connections world self1 = (Returns tt, self1)
  /\ calls self1
     = calls self
       ++ (match neo4j_driver self with None => [CallGraphDriver] | Some _ => [] end)
       ++ (match pg_conn self with None => [CallPgConnect] | Some _ => [] end).
Proof.
  unfold _setup_connections, bind, get_self, invoke, ret, set_neo4j_driver,
    set_pg_conn, log_call.
  destruct self as [driver conn log]. simpl.
  destruct driver as [[] |], conn as [[] |]; simpl;
    try destruct (graph_driver world) as [[] | m1]; simpl;
    try destruct (pg_connect world) as [[] | m2]; simpl;
    intros H; try discriminate H; injection H as <-; simpl;
    rewrite <- ?app_assoc, ?app_nil_r; split; reflexivity.
Qed.

(** X9.  When the graph driver is obtained and the relational store then refuses
    the connection, the exception leaves [_setup_connections], the driver is
    kept, and a further attempt calls the relational store only. *)
Theorem setup_connections_keeps_driver (self : Self) (msg : str) :
  neo4j_driver self = None -> pg_conn self = None ->
  graph_driver world = Returns tt -> pg_connect world = Raises msg ->
  exists self1,
    _setup_connections world self = (Raises msg, self1)
    /\ neo4j_driver self1 = Some tt
    /\ pg_conn self1 = None
    /\ calls self1 = calls self ++ [CallGraphDriver; CallPgConnect]
    /\ _setup_connections world self1 = (Raises msg, log_call CallPgConnect self1).
Proof.
  intros Hd Hc Hg Hp.
  unfold _setup_connections, bind, get_self, invoke, ret, set_neo4j_driver,
    set_pg_conn, log_call.
  destruct self as [driver conn log]. simpl in Hd, Hc. subst driver conn.
  simpl. rewrite Hg. simpl. rewrite Hp. simpl.
  eexists. split; [reflexivity |]. simpl.
  rewrite <- app_assoc. repeat split.
Qed.

(** X10.  The graph adapter needs the relational store: when the connection to it
    is missing and refused, the adapter raises before it opens a session or
    runs its query. *)
Theorem graph_analysis_needs_postgres (query : str) (max_results size : Z)
    (self : Self) (msg : str) :
  pg_conn self = None ->
  pg_connect world = Raises msg ->
  neo4j_driver self <> None \/ graph_driver world = Returns tt ->
  exists self1,
    _graph_analysis lower world query max_results size self = (Raises msg, self1)
    /\ calls self1
       = calls self
         ++ (match neo4j_driver self with None => [CallGraphDriver] | Some _ => [] end)
         ++ [CallPgConnect].
Proof.
  intros Hc Hp Hg. rewrite graph_analysis_cases.
  unfold _setup_connections, bind, get_self, invoke, ret, set_neo4j_driver,
    set_pg_conn, log_call.
  destruct self as [driver conn log]. simpl in Hc, Hg |- *. subst conn.
  destruct driver as [[] |]; simpl.
  - rewrite Hp. eexists. split; reflexivity.
  - destruct Hg as [Hg | Hg]; [congruence |].
    rewrite Hg. simpl. rewrite Hp. eexists. split; [reflexivity |].
    simpl. rewrite <- app_assoc. reflexivity.
Qed.

(** X11.  With [0 <= chunk_size < max_results] the budget of an item is 0: every
    returned row whose line has no salient sentence is shown as ["..."], and
    [char_used] is three times the number of rows. *)
Theorem graph_analysis_zero_budget (query : str) (max_results size : Z)
    (self self1 : Self) (rows : list collab_record) :
  0 <= size < max_results ->
  _setup_connections world self = (Returns tt, self1) ->
  driver_session world = Returns tt ->
  session_run world (cypher_query_of max_results) = Returns rows ->
  Forall
    (fun record =>
       forallb (fun s => negb (is_important lower s))
         (split_dot_space (artist_info_of record)) = true) rows ->
  fst (_graph_analysis lower world query max_results size self)
  = Returns (graph_dict (List.map (fun _ => lit "...") rows)
               (cypher_query_of max_results))
  /\ sum_len (List.map (fun _ : collab_record => lit "...") rows) = 3 * len rows.
Proof.
  intros Hsize Hsetup Hsession Hrun Hplain.
  assert (Hitems : List.map
                     (fun record =>
                        _chunk_text lower (artist_info_of record)
                          (size / max_results) true) rows
                   = List.map (fun _ => lit "...") rows).
  { rewrite Z.div_small by lia. clear Hrun.
    induction Hplain as [| r rest Hr _ IH]; [reflexivity |].
    simpl. rewrite IH. f_equal.
    apply chunk_text_no_budget; [lia | | exact Hr].
    unfold artist_info_of. rewrite !len_app.
    pose proof (len_nonneg (artist1 r)). pose proof (len_nonneg (artist2 r)).
    pose proof (len_str_of_int (mentions1 r)).
    pose proof (len_str_of_int (mentions2 r)).
    change (len (lit " ")) with 1. change (len [8596%N]) with 1.
    change (len (lit " (")) with 2. change (len (lit "+")) with 1.
    change (len (lit " menzioni)")) with 10. lia. }
  split.
  - rewrite graph_analysis_cases, Hsetup, Hsession. simpl.
    unfold graph_outcome. rewrite Hrun.
    destruct rows as [| row rows']; [reflexivity |].
    destruct (Z.eqb_spec max_results 0); [lia |].
    rewrite Hitems. reflexivity.
  - rewrite sum_len_concat. clear. induction rows as [| r rest IH].
    + reflexivity.
    + change (len (lit "..."
                     ++ concat (List.map (fun _ : collab_record => lit "...") rest))
              = 3 * len (r :: rest)).
      rewrite len_app, IH. unfold len. simpl length. lia.
Qed.

(** X12.  With [max_results] other than 0, the graph adapter keeps every row the
    store returns, in order, each chunked under the budget
    [chunk_size // max_results]; [total_found] is the number of these rows,
    which the adapter itself does not limit to [max_results]. *)
Theorem graph_analysis_keeps_rows (query : str) (max_results size : Z)
    (self self1 : Self) (rows : list collab_record) :
  max_results <> 0 ->
  _setup_connections world self = (Returns tt, self1) ->
  driver_session world = Returns tt ->
  session_run world (cypher_query_of max_results) = Returns rows ->
  exists d items,
    fst (_graph_analysis lower world query max_results size self) = Returns d
    /\ d !! "error" = None
    /\ d !! "collaborations" = Some (VList items)
    /\ d !! "total_found" = Some (VInt (len rows))
    /\ length items = length rows
    /\ (forall (i : nat) (record : collab_record),
          rows !! i = Some record ->
          items !! i
          = Some (_chunk_text lower (artist_info_of record)
                    (size / max_results) true)).
Proof.
  intros Hmr Hsetup Hsession Hrun.
  exists (graph_dict
            (List.map
               (fun record =>
                  _chunk_text lower (artist_info_of record)
                    (size / max_results) true) rows)
            (cypher_query_of max_results)).
  eexists. split; [| split; [reflexivity | split; [reflexivity |]]].
  - rewrite graph_analysis_cases, Hsetup, Hsession. simpl.
    unfold graph_outcome. rewrite Hrun.
    destruct rows as [| row rows']; [reflexivity |].
    destruct (Z.eqb_spec max_results 0); [contradiction | reflexivity].
  - split; [rewrite lookup_graph_dict_total; unfold len; rewrite length_map;
            reflexivity |].
    split; [apply length_map |].
    intros i record Hi. rewrite list_lookup_fmap, Hi. reflexivity.
Qed.

(** X13.  The temporal adapter shows one line per returned row, in order, and does
    not chunk them: a line has at least 23 characters, so [char_used] is at
    least 23 times the number of rows, whatever [chunk_size]. *)
Theorem temporal_analysis_not_chunked (query range : str) (max_results size : Z)
    (self self1 : Self) (rows : list year_row) :
  _setup_connections world self = (Returns tt, self1) ->
  conn_cursor world = Returns tt ->
  cursor_execute_fetchall world
    (temporal_query_of (date_filter_of world range) max_results) = Returns rows ->
  exists d,
    fst (_temporal_analysis world query range max_results size self) = Returns d
    /\ d !! "error" = None
    /\ d !! "timeline" = Some (VList (List.map year_info_of rows))
    /\ d !! "total_years" = Some (VInt (len rows))
    /\ d !! "char_used" = Some (VInt (sum_len (List.map year_info_of rows)))
    /\ 23 * len rows <= sum_len (List.map year_info_of rows).
Proof.
  intros Hsetup Hcursor Hrun.
  exists (temporal_dict (List.map year_info_of rows) range).
  split; [| split; [reflexivity | split; [reflexivity |]]].
  - rewrite temporal_analysis_cases, Hsetup, Hcursor. simpl.
    unfold temporal_outcome. rewrite Hrun. reflexivity.
  - split; [rewrite lookup_temporal_dict_total; unfold len; rewrite length_map;
            reflexivity |].
    split; [reflexivity |].
    rewrite sum_len_concat. clear. induction rows as [| r rest IH].
    + reflexivity.
    + change (23 * len (r :: rest)
              <= len (year_info_of r ++ concat (List.map year_info_of rest))).
      rewrite len_app.
      assert (23 <= len (year_info_of r)).
      { unfold year_info_of. rewrite !len_app.
        pose proof (len_str_of_int (row_year r)).
        pose proof (len_str_of_int (row_articles r)).
        pose proof (len_str_of_int (row_events r)).
        change (len (lit ": ")) with 2.
        change (len (lit " articoli, ")) with 11.
        change (len (lit " eventi")) with 7. lia. }
      unfold len in *. simpl length. lia.
Qed.

End AdapterExtras.

Lemma semantic_focus_first_word_witness :
  exists d,
    fst (_semantic_analysis ascii_lower sample_world
           (lit "  Biennale di Venezia") 200 fresh_self) = Returns d
    /\ d !! "focus" = Some (VStr (lit "Biennale")).
Proof.
  destruct (semantic_focus_first_word ascii_lower sample_world
              (lit "  Biennale di Venezia") 200 fresh_self (lit "ok"))
    as (d & ws & token & rest & Hrun & _ & Hfocus & _).
  - reflexivity.
  - reflexivity.
  - exists d. split; [exact Hrun |].
    rewrite semantic_analysis_returns in Hrun. simpl in Hrun.
    injection Hrun as <-. reflexivity.
Defined.

Lemma semantic_usage_counts_prompt_witness :
  semantic_outcome ascii_lower sample_world (lit "x") 2000 !! "tokens_used"
  = Some (VInt (259 + len (lit "x")
                + len (_chunk_text ascii_lower (lit "ok") 2000 true))).
Proof.
  apply (semantic_usage_counts_prompt ascii_lower sample_world (lit "x") 2000
           fresh_self).
  - reflexivity.
  - rewrite semantic_analysis_returns. reflexivity.
  - reflexivity.
Defined.

Lemma setup_connections_once_witness :
  _setup_connections sample_world
    {| neo4j_driver := Some tt; pg_conn := Some tt;
       calls := [CallGraphDriver; CallPgConnect] |}
  = (Returns tt,
     {| neo4j_driver := Some tt; pg_conn := Some tt;
        calls := [CallGraphDriver; CallPgConnect] |}).
Proof.
  apply (setup_connections_once sample_world fresh_self). reflexivity.
Defined.

Lemma setup_connections_keeps_driver_witness :
  exists self1,
    _setup_connections world_pg_down fresh_self
    = (Raises (lit "connection refused"), self1)
    /\ neo4j_driver self1 = Some tt.
Proof.
  destruct (setup_connections_keeps_driver world_pg_down fresh_self
              (lit "connection refused"))
    as (self1 & Hrun & Hdriver & _); try reflexivity.
  exists self1. split; assumption.
Defined.

Lemma graph_analysis_needs_postgres_witness :
  exists self1,
    _graph_analysis ascii_lower world_pg_down (lit "x") 5 200 fresh_self
    = (Raises (lit "connection refused"), self1)
    /\ calls self1 = [CallGraphDriver; CallPgConnect].
Proof.
  destruct (graph_analysis_needs_postgres ascii_lower world_pg_down (lit "x")
              5 200 fresh_self (lit "connection refused"))
    as (self1 & Hrun & Hcalls).
  - reflexivity.
  - reflexivity.
  - right. reflexivity.
  - exists self1. split; [exact Hrun | exact Hcalls].
Defined.

Lemma graph_analysis_zero_budget_witness :
  fst (_graph_analysis ascii_lower sample_world (lit "x") 5 3 fresh_self)
  = Returns (graph_dict [lit "..."] (cypher_query_of 5)).
Proof.
  apply (graph_analysis_zero_budget ascii_lower sample_world (lit "x") 5 3
           fresh_self
           {| neo4j_driver := Some tt; pg_conn := Some tt;
              calls := [CallGraphDriver; CallPgConnect] |}
           [ {| artist1 := lit "Burri"; artist2 := lit "Fontana";
                mentions1 := 320; mentions2 := 210 |} ]).
  - lia.
  - reflexivity.
  - reflexivity.
  - reflexivity.
  - constructor; [vm_compute; reflexivity | constructor].
Defined.

Lemma graph_analysis_keeps_rows_witness :
  exists d,
    fst (_graph_analysis ascii_lower sample_world (lit "x") 5 200 fresh_self)
    = Returns d
    /\ d !! "total_found" = Some (VInt 1).
Proof.
  destruct (graph_analysis_keeps_rows ascii_lower sample_world (lit "x") 5 200
              fresh_self
              {| neo4j_driver := Some tt; pg_conn := Some tt;
                 calls := [CallGraphDriver; CallPgConnect] |}
              [ {| artist1 := lit "Burri"; artist2 := lit "Fontana";
                   mentions1 := 320; mentions2 := 210 |} ])
    as (d & items & Hrun & _ & _ & Htotal & _).
  - lia.
  - reflexivity.
  - reflexivity.
  - reflexivity.
  - exists d. split; [exact Hrun | exact Htotal].
Defined.

Lemma temporal_analysis_not_chunked_witness :
  exists d,
    fst (_temporal_analysis sample_world (lit "x") (lit "all") 5 1 fresh_self)
    = Returns d
    /\ d !! "timeline" = Some (VList [lit "2024: 120 articoli, 30 eventi"]).
Proof.
  destruct (temporal_analysis_not_chunked sample_world (lit "x") (lit "all") 5 1
              fresh_self
              {| neo4j_driver := Some tt; pg_conn := Some tt;
                 calls := [CallGraphDriver; CallPgConnect] |}
              [ {| row_year := 2024; row_articles := 120; row_events := 30 |} ])
    as (d & Hrun & _ & Htimeline & _).
  - reflexivity.
  - reflexivity.
  - reflexivity.
  - exists d. split; [exact Hrun | exact Htimeline].
Defined.

(** ** The orchestrator: what it returns and when it raises *)

Lemma sum_values_insert (key : string) (z : Z) (usage : gmap string pyval) :
  usage !! key = None ->
  sum_values (<[key := VInt z]> usage) = sum_values usage + z.
Proof.
  intros Hnone. unfold sum_values.
  rewrite map_fold_insert_L; [reflexivity | | exact Hnone].
  intros j1 j2 z1 z2 y _ _ _. destruct z1, z2; lia.
Qed.

Lemma sum_values_empty : sum_values ∅ = 0.
Proof. unfold sum_values. apply map_fold_empty. Qed.

Section OrchestratorExtras.

Variable lower : str -> str.
Variable world : World.

Lemma setup_connections_raises (self self1 : Self) (msg : str) :
  _setup_connections world self = (Raises msg, self1) ->
  graph_driver world = Raises msg \/ pg_connect world = Raises msg.
Proof.
  unfold _setup_connections, bind, get_self, invoke, ret, set_neo4j_driver,
    set_pg_conn, log_call.
  destruct self as [driver conn log]. simpl.
  destruct driver as [[] |], conn as [[] |]; simpl;
    try destruct (graph_driver world) as [[] | m1]; simpl;
    try destruct (pg_connect world) as [[] | m2]; simpl;
    intros H; try discriminate H; injection H as <- _; auto.
Qed.

Lemma graph_analysis_raises (query : str) (max_results size : Z)
    (self self1 : Self) (msg : str) :
  _graph_analysis lower world query max_results size self = (Raises msg, self1) ->
  graph_driver world = Raises msg \/ pg_connect world = Raises msg
  \/ driver_session world = Raises msg.
Proof.
  rewrite graph_analysis_cases.
  destruct (_setup_connections world self) as [[[] | m] s] eqn:Hsetup.
  - destruct (driver_session world) as [[] | m]; [discriminate |].
    intros [= <- _]. auto.
  - intros [= <- _].
    destruct (setup_connections_raises _ _ _ Hsetup); auto.
Qed.

Lemma temporal_analysis_raises (query range : str) (max_results size : Z)
    (self self1 : Self) (msg : str) :
  _temporal_analysis world query range max_results size self = (Raises msg, self1) ->
  graph_driver world = Raises msg \/ pg_connect world = Raises msg
  \/ conn_cursor world = Raises msg.
Proof.
  rewrite temporal_analysis_cases.
  destruct (_setup_connections world self) as [[[] | m] s] eqn:Hsetup.
  - destruct (conn_cursor world) as [[] | m]; [discriminate |].
    intros [= <- _]. auto.
  - intros [= <- _].
    destruct (setup_connections_raises _ _ _ Hsetup); auto.
Qed.

(** The fields of the response that do not depend on the results. *)
Lemma execute_fields (params : TriQueryParams) (self self' : Self)
    (response : TriQueryResponse) :
  execute lower world params self = (Returns response, self') ->
  r_query response = query params
  /\ systems_used response
     = (if use_semantic params then [lit "semantic"] else [])
       ++ (if use_graph params then [lit "graph"] else [])
       ++ (if use_dates params then [lit "temporal"] else [])
  /\ chunking_applied response
     = (chunk_size params, max_results params,
        sum_values (context_usage response)).
Proof.
  intros Hex. unfold execute in Hex.
  assert (Hsem : forall s d s1,
             _semantic_analysis lower world (query params) (chunk_size params) s
             = (Returns d, s1) -> adapter_result params Semantic d)
    by (intros s d s1; apply (run_adapter_shape lower world Semantic)).
  assert (Hgra : forall s d s1,
             _graph_analysis lower world (query params) (max_results params)
               (chunk_size params) s
             = (Returns d, s1) -> adapter_result params Graph d)
    by (intros s d s1; apply (run_adapter_shape lower world Graph)).
  assert (Htem : forall s d s1,
             _temporal_analysis world (query params) (date_range params)
               (max_results params) (chunk_size params) s
             = (Returns d, s1) -> adapter_result params Temporal d)
    by (intros s d s1; apply (run_adapter_shape lower world Temporal)).
  destruct (use_semantic params) eqn:Fs;
    destruct (use_graph params) eqn:Fg;
    destruct (use_dates params) eqn:Ft;
    cbv beta iota delta [bind ret] in Hex;
    repeat match type of Hex with
      | context [_semantic_analysis ?l ?w ?q ?c ?s] =>
          let E := fresh "E" in
          destruct (_semantic_analysis l w q c s) as [[? | ?] ?] eqn:E;
          [apply Hsem in E | discriminate Hex]
      | context [_graph_analysis ?l ?w ?q ?m ?c ?s] =>
          let E := fresh "E" in
          destruct (_graph_analysis l w q m c s) as [[? | ?] ?] eqn:E;
          [apply Hgra in E | discriminate Hex]
      | context [_temporal_analysis ?w ?q ?r ?m ?c ?s] =>
          let E := fresh "E" in
          destruct (_temporal_analysis w q r m c s) as [[? | ?] ?] eqn:E;
          [apply Htem in E | discriminate Hex]
      end;
    match type of Hex with
    | context [summary_parts_of ?a ?b ?c ?s] =>
        rewrite (summary_parts_fragments params a b c s) in Hex by (simpl; trivial)
    end;
    injection Hex as <- <-; repeat split.
Qed.

(** Whatever [execute] raises was raised while the connections were set up,
    the graph session opened or the cursor opened. *)
Lemma execute_raises_cause (params : TriQueryParams) (self self' : Self)
    (msg : str) :
  execute lower world params self = (Raises msg, self') ->
  (use_graph params = true \/ use_dates params = true)
  /\ (graph_driver world = Raises msg \/ pg_connect world = Raises msg
      \/ driver_session world = Raises msg \/ conn_cursor world = Raises msg).
Proof.
  intros Hex. unfold execute in Hex.
  assert (Hsem : forall s d s1,
             _semantic_analysis lower world (query params) (chunk_size params) s
             = (Returns d, s1) -> adapter_result params Semantic d)
    by (intros s d s1; apply (run_adapter_shape lower world Semantic)).
  assert (Hgra : forall s d s1,
             _graph_analysis lower world (query params) (max_results params)
               (chunk_size params) s
             = (Returns d, s1) -> adapter_result params Graph d)
    by (intros s d s1; apply (run_adapter_shape lower world Graph)).
  assert (Htem : forall s d s1,
             _temporal_analysis world (query params) (date_range params)
               (max_results params) (chunk_size params) s
             = (Returns d, s1) -> adapter_result params Temporal d)
    by (intros s d s1; apply (run_adapter_shape lower world Temporal)).
  destruct (use_semantic params) eqn:Fs;
    destruct (use_graph params) eqn:Fg;
    destruct (use_dates params) eqn:Ft;
    cbv beta iota delta [bind ret] in Hex;
    try rewrite semantic_analysis_returns in Hex;
    repeat match type of Hex with
      | context [_graph_analysis ?l ?w ?q ?m ?c ?s] =>
          let E := fresh "E" in
          destruct (_graph_analysis l w q m c s) as [[? | ?] ?] eqn:E;
          [apply Hgra in E
          | injection Hex as <- _; apply graph_analysis_raises in E;
            split; [auto | tauto]]
      | context [_temporal_analysis ?w ?q ?r ?m ?c ?s] =>
          let E := fresh "E" in
          destruct (_temporal_analysis w q r m c s) as [[? | ?] ?] eqn:E;
          [apply Htem in E
          | injection Hex as <- _; apply temporal_analysis_raises in E;
            split; [auto | tauto]]
      end;
    match type of Hex with
    | context [summary_parts_of ?a ?b ?c ?s] =>
        rewrite (summary_parts_fragments params a b c s) in Hex
          by (simpl; trivial; apply semantic_outcome_shape)
    end;
    discriminate Hex.
Qed.

Lemma setup_connections_calls (self self1 : Self) :
  _setup_connections world self = (Returns tt, self1) ->
  calls self1
  = calls self
    ++ (match neo4j_driver self with None => [CallGraphDriver] | Some _ => [] end)
    ++ (match pg_conn self with None => [CallPgConnect] | Some _ => [] end).
Proof.
  unfold _setup_connections, bind, get_self, invoke, ret, set_neo4j_driver,
    set_pg_conn, log_call.
  destruct self as [driver conn log]. simpl.
  destruct driver as [[] |], conn as [[] |]; simpl;
    try destruct (graph_driver world) as [[] | m1]; simpl;
    try destruct (pg_connect world) as [[] | m2]; simpl;
    intros H; try discriminate H; injection H as <-; simpl;
    rewrite <- ?app_assoc, ?app_nil_r; reflexivity.
Qed.

(** The calls of an adapter that sets the connections up: those made before
    stay in the log, and connections that were missing are asked for. *)
Lemma graph_analysis_calls (query : str) (max_results size : Z)
    (self self1 : Self) (d : gmap string pyval) :
  _graph_analysis lower world query max_results size self = (Returns d, self1) ->
  (forall c, In c (calls self) -> In c (calls self1))
  /\ (neo4j_driver self = None -> pg_conn self = None ->
      In CallGraphDriver (calls self1) /\ In CallPgConnect (calls self1)).
Proof.
  rewrite graph_analysis_cases.
  destruct (_setup_connections world self) as [[[] | m] s] eqn:Hsetup;
    [| discriminate].
  apply setup_connections_calls in Hsetup.
  destruct (driver_session world) as [[] | m]; [| discriminate].
  intros [= _ <-]. simpl. rewrite Hsetup. split.
  - intros c Hc. rewrite !in_app_iff. auto.
  - intros -> ->. rewrite !in_app_iff. simpl. auto 10.
Qed.

Lemma temporal_analysis_calls (query range : str) (max_results size : Z)
    (self self1 : Self) (d : gmap string pyval) :
  _temporal_analysis world query range max_results size self = (Returns d, self1) ->
  (forall c, In c (calls self) -> In c (calls self1))
  /\ (neo4j_driver self = None -> pg_conn self = None ->
      In CallGraphDriver (calls self1) /\ In CallPgConnect (calls self1)).
Proof.
  rewrite temporal_analysis_cases.
  destruct (_setup_connections world self) as [[[] | m] s] eqn:Hsetup;
    [| discriminate].
  apply setup_connections_calls in Hsetup.
  destruct (conn_cursor world) as [[] | m]; [| discriminate].
  intros [= _ <-]. simpl. rewrite Hsetup. split.
  - intros c Hc. rewrite !in_app_iff. auto.
  - intros -> ->. rewrite !in_app_iff. simpl. auto 10.
Qed.

(** In a run that starts without connections and enables the graph or the
    temporal system, both connections are asked for. *)
Lemma execute_opens_connections (params : TriQueryParams) (self' : Self)
    (response : TriQueryResponse) :
  execute lower world params new_tool = (Returns response, self') ->
  use_graph params = true \/ use_dates params = true ->
  In CallGraphDriver (calls self') /\ In CallPgConnect (calls self').
Proof.
  intros Hex Hstores. unfold execute in Hex.
  assert (Hgra : forall s d s1,
             _graph_analysis lower world (query params) (max_results params)
               (chunk_size params) s
             = (Returns d, s1) -> adapter_result params Graph d)
    by (intros s d s1; apply (run_adapter_shape lower world Graph)).
  assert (Htem : forall s d s1,
             _temporal_analysis world (query params) (date_range params)
               (max_results params) (chunk_size params) s
             = (Returns d, s1) -> adapter_result params Temporal d)
    by (intros s d s1; apply (run_adapter_shape lower world Temporal)).
  destruct (use_semantic params) eqn:Fs;
    destruct (use_graph params) eqn:Fg;
    destruct (use_dates params) eqn:Ft;
    try (destruct Hstores; discriminate);
    cbv beta iota delta [bind ret] in Hex;
    try rewrite semantic_analysis_returns in Hex;
    repeat match type of Hex with
      | context [_graph_analysis ?l ?w ?q ?m ?c ?s] =>
          let E := fresh "Eg" in
          destruct (_graph_analysis l w q m c s) as [[? | ?] ?] eqn:E;
          [pose proof (Hgra _ _ _ E) | discriminate Hex]
      | context [_temporal_analysis ?w ?q ?r ?m ?c ?s] =>
          let E := fresh "Et" in
          destruct (_temporal_analysis w q r m c s) as [[? | ?] ?] eqn:E;
          [pose proof (Htem _ _ _ E) | discriminate Hex]
      end;
    match type of Hex with
    | context [summary_parts_of ?a ?b ?c ?s] =>
        rewrite (summary_parts_fragments params a b c s) in Hex
          by (simpl; trivial; apply semantic_outcome_shape)
    end;
    injection Hex as _ <-;
    repeat match goal with
      | E : _graph_analysis _ _ _ _ _ _ = (Returns _, _) |- _ =>
          apply graph_analysis_calls in E; destruct E
      | E : _temporal_analysis _ _ _ _ _ _ = (Returns _, _) |- _ =>
          apply temporal_analysis_calls in E; destruct E
      end;
    repeat match goal with
      | H : neo4j_driver ?s = None -> pg_conn ?s = None -> _ /\ _ |- _ =>
          first [ specialize (H eq_refl eq_refl); destruct H | clear H ]
      end;
    split; auto.
Qed.

(** When the relational store refuses the connection, a run that starts
    without connections and enables the graph or the temporal system raises
    the exception of the store. *)
Lemma execute_pg_refused (params : TriQueryParams) (msg : str) :
  use_graph params = true \/ use_dates params = true ->
  graph_driver world = Returns tt ->
  pg_connect world = Raises msg ->
  exists self',
    execute lower world params new_tool = (Raises msg, self').
Proof.
  intros Hstores Hd Hp. unfold execute.
  assert (Hsetup : forall s,
             neo4j_driver s = None -> pg_conn s = None ->
             exists s1, _setup_connections world s = (Raises msg, s1)).
  { intros s Hn Hc. unfold _setup_connections, bind, get_self, invoke, ret,
      set_neo4j_driver, set_pg_conn, log_call.
    destruct s as [driver conn log]. simpl in Hn, Hc. subst driver conn. simpl.
    rewrite Hd. simpl. rewrite Hp. eexists. reflexivity. }
  destruct (use_semantic params) eqn:Fs;
    destruct (use_graph params) eqn:Fg;
    destruct (use_dates params) eqn:Ft;
    try (destruct Hstores; discriminate);
    cbv beta iota delta [bind ret];
    try rewrite semantic_analysis_returns;
    try rewrite graph_analysis_cases;
    try rewrite temporal_analysis_cases;
    match goal with
    | |- context [_setup_connections world ?s] =>
        destruct (Hsetup s eq_refl eq_refl) as [s1 ->]
    end;
    eexists; reflexivity.
Qed.

(** X14.  [systems_used] lists the systems the request enables, in the order
    semantic, graph, temporal, whether their results are errors or not. *)
Theorem execute_systems_used (params : TriQueryParams) (self self' : Self)
    (response : TriQueryResponse) :
  execute lower world params self = (Returns response, self') ->
  systems_used response
  = (if use_semantic params then [lit "semantic"] else [])
    ++ (if use_graph params then [lit "graph"] else [])
    ++ (if use_dates params then [lit "temporal"] else []).
Proof. intros Hex. apply (execute_fields params self self' response Hex). Qed.

(** X15.  [total_chars] is the sum of the three entries of [context_usage], a
    system without entry counting for 0. *)
Theorem execute_total_chars (params : TriQueryParams) (self self' : Self)
    (response : TriQueryResponse) :
  execute lower world params self = (Returns response, self') ->
  chunking_applied response
  = (chunk_size params, max_results params,
     usage_entry response Semantic + usage_entry response Graph
     + usage_entry response Temporal).
Proof.
  intros Hex.
  destruct (execute_fields params self self' response Hex) as (_ & _ & ->).
  f_equal.
  destruct (execute_inv lower world params self self' response Hex) as [Hall _].
  pose proof (Hall Semantic) as Hs. pose proof (Hall Graph) as Hg.
  pose proof (Hall Temporal) as Ht. clear Hall.
  unfold usage_entry. simpl in Hs, Hg, Ht |- *.
  assert (Hdom : forall key z,
             context_usage response !! key = Some z ->
             key = "semantic" \/ key = "graph" \/ key = "temporal").
  { clear Hs Hg Ht. intros key z Hkey. unfold execute in Hex.
    destruct (use_semantic params), (use_graph params), (use_dates params);
      cbv beta iota delta [bind ret] in Hex;
      repeat match type of Hex with
        | context [_semantic_analysis ?l ?w ?q ?c ?s] =>
            destruct (_semantic_analysis l w q c s) as [[? | ?] ?];
            [| discriminate Hex]
        | context [_graph_analysis ?l ?w ?q ?m ?c ?s] =>
            destruct (_graph_analysis l w q m c s) as [[? | ?] ?];
            [| discriminate Hex]
        | context [_temporal_analysis ?w ?q ?r ?m ?c ?s] =>
            destruct (_temporal_analysis w q r m c s) as [[? | ?] ?];
            [| discriminate Hex]
        | context [summary_parts_of ?a ?b ?c ?s] =>
            destruct (summary_parts_of a b c s) as [[? | ?] ?];
            [| discriminate Hex]
        end;
      injection Hex as <- _; simpl in Hkey;
      repeat (apply lookup_insert_Some in Hkey as [[<- _] | [_ Hkey]]; [tauto |]);
      rewrite lookup_empty in Hkey; discriminate. }
  assert (Hmap : context_usage response
                 = (match context_usage response !! "temporal" with
                    | Some v => <["temporal" := v]>
                    | None => fun m => m
                    end)
                     ((match context_usage response !! "graph" with
                       | Some v => <["graph" := v]>
                       | None => fun m => m
                       end)
                        ((match context_usage response !! "semantic" with
                          | Some v => <["semantic" := v]>
                          | None => fun m => m
                          end) ∅))).
  { apply map_eq. intros key.
    destruct (context_usage response !! "temporal") as [vt |] eqn:Et,
             (context_usage response !! "graph") as [vg |] eqn:Eg,
             (context_usage response !! "semantic") as [vs |] eqn:Es;
      destruct (context_usage response !! key) as [v |] eqn:Ek;
      try (destruct (Hdom key v Ek) as [-> | [-> | ->]]);
      repeat (rewrite lookup_insert_ne by discriminate);
      rewrite ?lookup_insert_eq, ?lookup_empty; try congruence;
      symmetry;
      repeat (first
                [ rewrite lookup_empty
                | rewrite lookup_insert_ne
                    by (intros <-; congruence) ]);
      reflexivity. }
  rewrite Hmap at 1.
  destruct (semantic_analysis response) as [ds |];
    destruct (graph_data response) as [dg |];
    destruct (temporal_data response) as [dt |];
    repeat match goal with
      | H : _ /\ adapter_result _ ?a ?d /\ _ |- _ =>
          let z := fresh "z" in
          let Hz := fresh "Hz" in
          let Hshape := fresh "Hshape" in
          destruct H as (_ & Hshape & ->);
          destruct (adapter_result_usage params a d Hshape) as (z & _ & Hz);
          simpl in Hz; rewrite Hz
      | H : _ /\ _ = None |- _ => destruct H as [_ ->]
      end;
    repeat (rewrite sum_values_insert
              by (repeat (rewrite lookup_insert_ne by discriminate);
                  apply lookup_empty));
    rewrite sum_values_empty; lia.
Qed.

(** X16.  A request that enables neither the graph system nor the temporal system
    always gets its response: no connection is opened, the only call is the
    one of the semantic adapter, and with no system enabled at all the
    summary is ["Nessun sistema attivato"]. *)
Theorem execute_without_stores (params : TriQueryParams) (self : Self) :
  use_graph params = false ->
  use_dates params = false ->
  exists response self',
    execute lower world params self = (Returns response, self')
    /\ calls self'
       = calls self
         ++ (if use_semantic params
             then [CallGenerate (semantic_prompt (query params))] else [])
    /\ neo4j_driver self' = neo4j_driver self
    /\ pg_conn self' = pg_conn self
    /\ graph_data response = None
    /\ temporal_data response = None
    /\ (use_semantic params = false ->
        combined_summary response = lit "Nessun sistema attivato"
        /\ systems_used response = []
        /\ context_usage response = ∅).
Proof.
  intros Fg Ft. unfold execute. rewrite Fg, Ft.
  destruct (use_semantic params) eqn:Fs; cbv beta iota delta [bind ret].
  - rewrite semantic_analysis_returns.
    rewrite (summary_parts_fragments params)
      by (simpl; trivial; apply semantic_outcome_shape).
    eexists. eexists. split; [reflexivity |].
    repeat split; discriminate.
  - rewrite (summary_parts_fragments params) by (simpl; trivial).
    eexists. eexists. split; [reflexivity |].
    destruct self; simpl. rewrite app_nil_r. repeat split.
Qed.

(** X17.  An exception that leaves [execute] was raised while the connections were
    set up, the graph session opened or the cursor opened, for a request that
    enables the graph system or the temporal system: the orchestrator raises
    nothing of its own, and no failure of a query leaves it. *)
Theorem execute_raises_only_on_connection (params : TriQueryParams)
    (self self' : Self) (msg : str) :
  execute lower world params self = (Raises msg, self') ->
  (use_graph params = true \/ use_dates params = true)
  /\ (graph_driver world = Raises msg \/ pg_connect world = Raises msg
      \/ driver_session world = Raises msg \/ conn_cursor world = Raises msg).
Proof. apply execute_raises_cause. Qed.

(** X18.  When the connections, the session and the cursor can be opened, every
    request gets a response, whatever the three queries do, and the response
    holds a result, possibly an error result, for every enabled system. *)
Theorem execute_isolates_query_failures (params : TriQueryParams) (self : Self) :
  graph_driver world = Returns tt ->
  pg_connect world = Returns tt ->
  driver_session world = Returns tt ->
  conn_cursor world = Returns tt ->
  exists response self',
    execute lower world params self = (Returns response, self')
    /\ (forall a : adapter,
          enabled a params = true ->
          exists d, result_of a response = Some d
                    /\ adapter_result params a d).
Proof.
  intros Hd Hp Hs Hc.
  destruct (execute lower world params self) as [[response | msg] self'] eqn:Hex.
  - exists response, self'. split; [reflexivity |].
    intros a Ha.
    destruct (execute_inv lower world params self self' response Hex) as [Hall _].
    specialize (Hall a). destruct (result_of a response) as [d |].
    + exists d. split; [reflexivity | apply Hall].
    + destruct Hall as [Hoff _]. congruence.
  - destruct (execute_raises_cause params self self' msg Hex)
      as [_ [H | [H | [H | H]]]]; congruence.
Qed.

(** X19.  The values of [smart_chunking] and [output_format] change nothing in what
    [execute] does: the adapters always chunk with [smart_chunking = True]. *)
Theorem execute_ignores_options (params : TriQueryParams) (smart : bool)
    (format : str) (self : Self) :
  execute lower world (with_options params smart format) self
  = execute lower world params self.
Proof. destruct params. reflexivity. Qed.

End OrchestratorExtras.

Lemma execute_systems_used_witness :
  match execute ascii_lower world_graph_query_fails semantic_and_graph fresh_self with
  | (Returns response, _) =>
      systems_used response = [lit "semantic"; lit "graph"]
      /\ is_Some (lookup_in (graph_data response) "error")
  | (Raises _, _) => False
  end.
Proof.
  destruct (execute ascii_lower world_graph_query_fails semantic_and_graph fresh_self)
    as [[response | msg] self'] eqn:Hrun.
  - split.
    + apply (execute_systems_used ascii_lower world_graph_query_fails
               semantic_and_graph fresh_self self' response Hrun).
    + vm_compute in Hrun. injection Hrun as <- _. eexists. reflexivity.
  - vm_compute in Hrun. discriminate Hrun.
Defined.

Lemma execute_total_chars_witness :
  match execute ascii_lower sample_world all_systems fresh_self with
  | (Returns response, _) =>
      chunking_applied response
      = (200, 5,
         usage_entry response Semantic + usage_entry response Graph
         + usage_entry response Temporal)
  | (Raises _, _) => False
  end.
Proof.
  destruct (execute ascii_lower sample_world all_systems fresh_self)
    as [[response | msg] self'] eqn:Hrun.
  - apply (execute_total_chars ascii_lower sample_world all_systems fresh_self
             self' response Hrun).
  - vm_compute in Hrun. discriminate Hrun.
Defined.

Example execute_total_chars_value :
  match execute ascii_lower sample_world all_systems fresh_self with
  | (Returns response, _) =>
      chunking_applied response = (200, 5, 343)
      /\ usage_entry response Semantic = 280
      /\ usage_entry response Graph = 34
      /\ usage_entry response Temporal = 29
  | (Raises _, _) => False
  end.
Proof. vm_compute. repeat split; reflexivity. Qed.

Lemma execute_without_stores_witness :
  exists response self',
    execute ascii_lower sample_world semantic_only fresh_self
    = (Returns response, self')
    /\ calls self' = [CallGenerate (semantic_prompt (lit "x"))]
    /\ neo4j_driver self' = None.
Proof.
  destruct (execute_without_stores ascii_lower sample_world semantic_only fresh_self)
    as (response & self' & Hrun & Hcalls & Hdriver & _); try reflexivity.
  exists response, self'. repeat split; assumption.
Defined.

Lemma execute_raises_only_on_connection_witness :
  match execute ascii_lower world_pg_down semantic_and_graph fresh_self with
  | (Raises msg, _) => pg_connect world_pg_down = Raises msg
  | (Returns _, _) => False
  end.
Proof.
  destruct (execute ascii_lower world_pg_down semantic_and_graph fresh_self)
    as [[response | msg] self'] eqn:Hrun.
  - vm_compute in Hrun. discriminate Hrun.
  - destruct (execute_raises_only_on_connection ascii_lower world_pg_down
                semantic_and_graph fresh_self self' msg Hrun)
      as [_ [H | [H | [H | H]]]];
      [discriminate H | exact H | discriminate H | discriminate H].
Defined.

Lemma execute_isolates_query_failures_witness :
  exists response self',
    execute ascii_lower world_graph_query_fails semantic_and_graph fresh_self
    = (Returns response, self')
    /\ exists d, graph_data response = Some d.
Proof.
  destruct (execute_isolates_query_failures ascii_lower world_graph_query_fails
              semantic_and_graph fresh_self)
    as (response & self' & Hrun & Hall); try reflexivity.
  exists response, self'. split; [exact Hrun |].
  destruct (Hall Graph eq_refl) as (d & Hd & _). exists d. exact Hd.
Defined.

(** ** Authentication and the endpoint *)

Lemma is_prefix_split (p s : str) :
  is_prefix p s = true -> s = p ++ drop (length p) s.
Proof.
  revert s. induction p as [| a p IH]; intros s H; [reflexivity |].
  destruct s as [| b s]; [discriminate |].
  simpl in H. apply andb_true_iff in H as [Hab Hp].
  apply N.eqb_eq in Hab. subst b. simpl. f_equal. apply IH, Hp.
Qed.

Lemma lstrip_head (s : str) (c : N) (rest : str) :
  lstrip s = c :: rest -> is_space c = false.
Proof.
  induction s as [| a s IH]; simpl; [discriminate |].
  destruct (is_space a) eqn:Ha; [exact IH |].
  intros [= <- _]. exact Ha.
Qed.

(** A stripped string does not end with whitespace. *)
Lemma strip_last (s front : str) (c : N) :
  strip s = front ++ [c] -> is_space c = false.
Proof.
  unfold strip, rstrip. intros H.
  apply (f_equal (@rev N)) in H. rewrite rev_involutive, rev_app_distr in H.
  simpl in H. exact (lstrip_head _ _ _ H).
Qed.

Lemma validate_api_key_format_rest (rest : str) :
  validate_api_key_format (lit "artr-" ++ rest)
  = (24 <=? length rest)%nat
    && forallb is_alnum (take 24 rest)
    && match drop 24 rest with
       | [] => true
       | [c] => (c =? 10)%N
       | _ :: _ :: _ => false
       end.
Proof. unfold validate_api_key_format. rewrite is_prefix_app. reflexivity. Qed.

Lemma validate_api_key_format_iff (key : str) :
  validate_api_key_format key = true <->
  exists body,
    length body = 24%nat
    /\ forallb is_alnum body = true
    /\ (key = lit "artr-" ++ body \/ key = lit "artr-" ++ body ++ [10%N]).
Proof.
  split.
  - unfold validate_api_key_format.
    intros H. apply andb_true_iff in H as [Hpre H].
    apply andb_true_iff in H as [H Hend].
    apply andb_true_iff in H as [Hlen Hbody].
    apply Nat.leb_le in Hlen.
    apply is_prefix_split in Hpre. change (length (lit "artr-")) with 5%nat in Hpre.
    exists (take 24 (drop 5 key)).
    split; [rewrite length_take; lia |]. split; [exact Hbody |].
    pose proof (take_drop 24 (drop 5 key)) as Hsplit.
    destruct (drop 24 (drop 5 key)) as [| c [| c' tail]]; [| | discriminate].
    + left. rewrite app_nil_r in Hsplit. rewrite Hsplit. exact Hpre.
    + right. apply N.eqb_eq in Hend. subst c. rewrite Hsplit. exact Hpre.
  - intros (body & Hlen & Hbody & [-> | ->]);
      rewrite validate_api_key_format_rest.
    + rewrite take_ge, drop_ge by lia. rewrite Hbody, Hlen. reflexivity.
    + rewrite take_app_length' by (symmetry; exact Hlen).
      rewrite drop_app_length' by (symmetry; exact Hlen).
      rewrite Hbody, length_app, Hlen. reflexivity.
Qed.

Lemma valid_keys_wellformed (keys_str key : str) :
  In key (get_valid_api_keys keys_str) ->
  validate_api_key_format key = true
  /\ length key = 29%nat
  /\ exists body,
       key = lit "artr-" ++ body
       /\ length body = 24%nat
       /\ forallb is_alnum body = true.
Proof.
  unfold get_valid_api_keys. intros Hin.
  apply filter_In in Hin as [Hin Hvalid].
  apply in_map_iff in Hin as (raw & <- & _).
  split; [exact Hvalid |].
  apply validate_api_key_format_iff in Hvalid
    as (body & Hlen & Hbody & [Hkey | Hkey]).
  - split.
    + rewrite Hkey, length_app, Hlen. reflexivity.
    + exists body. repeat split; assumption.
  - exfalso. rewrite app_assoc in Hkey.
    apply strip_last in Hkey. discriminate Hkey.
Qed.

(** X20.  The format of a key: ["artr-"], 24 letters or digits of ASCII, and
    possibly one newline after them, which [$] lets through. *)
Theorem validate_api_key_format_spec (key : str) :
  validate_api_key_format key = true <->
  exists body,
    length body = 24%nat
    /\ forallb is_alnum body = true
    /\ (key = lit "artr-" ++ body \/ key = lit "artr-" ++ body ++ [10%N]).
Proof. apply validate_api_key_format_iff. Qed.

(** X21.  Every key [get_valid_api_keys] returns is ["artr-"] followed by 24
    letters or digits of ASCII and nothing else: 29 characters, without the
    whitespace or the newline the variable may hold around it. *)
Theorem get_valid_api_keys_wellformed (keys_str key : str) :
  In key (get_valid_api_keys keys_str) ->
  validate_api_key_format key = true
  /\ length key = 29%nat
  /\ exists body,
       key = lit "artr-" ++ body
       /\ length body = 24%nat
       /\ forallb is_alnum body = true.
Proof. apply valid_keys_wellformed. Qed.

Lemma key_in_In (x : str) (keys : list str) :
  key_in x keys = true <-> In x keys.
Proof.
  unfold key_in. rewrite existsb_exists. split.
  - intros (k & Hin & Heq). apply bool_decide_eq_true in Heq. subst k. exact Hin.
  - intros Hin. exists x. split; [exact Hin | apply bool_decide_eq_true; reflexivity].
Qed.

Lemma verify_api_key_accepts_in (keys_str credentials : str) :
  (exists key, verify_api_key keys_str credentials = HttpOk key)
  <-> In credentials (get_valid_api_keys keys_str).
Proof.
  unfold verify_api_key. split.
  - intros (key & H).
    destruct (validate_api_key_format credentials); [| discriminate].
    simpl in H.
    destruct (get_valid_api_keys keys_str) as [| k ks] eqn:Hkeys; [discriminate |].
    destruct (key_in credentials (k :: ks)) eqn:Hin; [| discriminate].
    apply key_in_In. exact Hin.
  - intros Hin.
    destruct (valid_keys_wellformed keys_str credentials Hin) as [Hvalid _].
    rewrite Hvalid. simpl.
    destruct (get_valid_api_keys keys_str) as [| k ks] eqn:Hkeys; [destruct Hin |].
    apply key_in_In in Hin. rewrite Hin. eexists. reflexivity.
Qed.

Lemma verify_api_key_refusals_codes (keys_str credentials : str) (status_code : Z)
    (detail : str) :
  verify_api_key keys_str credentials = HTTPException status_code detail ->
  (status_code = 401 \/ status_code = 500)
  /\ (status_code = 500 <->
      validate_api_key_format credentials = true
      /\ get_valid_api_keys keys_str = []).
Proof.
  unfold verify_api_key.
  destruct (validate_api_key_format credentials); simpl.
  - destruct (get_valid_api_keys keys_str) as [| k ks].
    + intros [= <- _]. split; [right; reflexivity |]. tauto.
    + destruct (key_in credentials (k :: ks)); simpl; [discriminate |].
      intros [= <- _]. split; [left; reflexivity |].
      split; [discriminate | intros [_ H]; discriminate H].
  - intros [= <- _]. split; [left; reflexivity |].
    split; [discriminate | intros [H _]; discriminate H].
Qed.

(** X22.  [verify_api_key] lets a key through exactly when it is one of the keys
    [get_valid_api_keys] returns (so a key followed by a newline, which has
    the format, is never let through), and then gives it back unchanged. *)
Theorem verify_api_key_accepts (keys_str credentials : str) :
  (exists key, verify_api_key keys_str credentials = HttpOk key)
  <-> In credentials (get_valid_api_keys keys_str)
      /\ verify_api_key keys_str credentials = HttpOk credentials.
Proof.
  split.
  - intros (key & H). split; [apply verify_api_key_accepts_in; eauto |].
    unfold verify_api_key in *.
    destruct (validate_api_key_format credentials); [| discriminate].
    simpl in *.
    destruct (get_valid_api_keys keys_str) as [| k ks]; [discriminate |].
    destruct (key_in credentials (k :: ks)); [reflexivity | discriminate].
  - intros [_ H]. eauto.
Qed.

(** X23.  A refusal is a 401 or a 500, and it is a 500 exactly when the presented
    key has the format of a key while no well-formed key is configured: the
    format is checked first. *)
Theorem verify_api_key_refusals (keys_str credentials : str) (status_code : Z)
    (detail : str) :
  verify_api_key keys_str credentials = HTTPException status_code detail ->
  (status_code = 401 \/ status_code = 500)
  /\ (status_code = 500 <->
      validate_api_key_format credentials = true
      /\ get_valid_api_keys keys_str = []).
Proof. apply verify_api_key_refusals_codes. Qed.

Section EndpointProperties.

Variable lower : str -> str.
Variable world : World.


(** X25.  With an accepted key and the connections, the session and the cursor
    available, the endpoint answers with the response of [execute] run on a
    tool of its own: the systems used are those the request enables, and the
    connections are opened anew for a request that enables the graph or the
    temporal system. *)
Theorem mcp_tri_query_answers (keys_str credentials : str)
    (params : TriQueryParams) :
  In credentials (get_valid_api_keys keys_str) ->
  graph_driver world = Returns tt ->
  pg_connect world = Returns tt ->
  driver_session world = Returns tt ->
  conn_cursor world = Returns tt ->
  exists envelope made,
    mcp_tri_query lower world keys_str credentials params = (HttpOk envelope, made)
    /\ envelope_systems_used envelope
       = (if use_semantic params then [lit "semantic"] else [])
         ++ (if use_graph params then [lit "graph"] else [])
         ++ (if use_dates params then [lit "temporal"] else [])
    /\ envelope_smart_chunking envelope = smart_chunking params
    /\ (use_graph params = true \/ use_dates params = true ->
        In CallGraphDriver made /\ In CallPgConnect made).
Proof.
  intros Hin Hd Hp Hs Hc. unfold mcp_tri_query.
  destruct (proj2 (verify_api_key_accepts_in keys_str credentials) Hin)
    as [key ->].
  destruct (execute lower world params new_tool) as [[result | msg] tool'] eqn:Hex.
  - eexists. eexists. split; [reflexivity |]. simpl.
    split; [apply (execute_fields lower world params new_tool tool' result Hex) |].
    split; [reflexivity |].
    intros Hstores.
    apply (execute_opens_connections lower world params tool' result Hex Hstores).
  - destruct (execute_raises_cause lower world params new_tool tool' msg Hex)
      as [_ [H | [H | [H | H]]]]; congruence.
Qed.

(** X26.  With an accepted key, a request that enables the graph or the temporal
    system while the relational store refuses the connection is answered by
    a 500 whose detail is ["Tri-query failed: "] and the message of the
    store, also when its semantic part had succeeded. *)
Theorem mcp_tri_query_connection_failure (keys_str credentials : str)
    (params : TriQueryParams) (msg : str) :
  In credentials (get_valid_api_keys keys_str) ->
  use_graph params = true \/ use_dates params = true ->
  graph_driver world = Returns tt ->
  pg_connect world = Raises msg ->
  fst (mcp_tri_query lower world keys_str credentials params)
  = HTTPException 500 (lit "Tri-query failed: " ++ msg).
Proof.
  intros Hin Hstores Hd Hp. unfold mcp_tri_query.
  destruct (proj2 (verify_api_key_accepts_in keys_str credentials) Hin)
    as [key ->].
  destruct (execute_pg_refused lower world params msg Hstores Hd Hp) as [s ->].
  reflexivity.
Qed.

End EndpointProperties.

Example get_valid_api_keys_sample :
  get_valid_api_keys sample_keys_str = [sample_key].
Proof. reflexivity. Qed.

Example validate_api_key_format_newline :
  validate_api_key_format (sample_key ++ [10%N]) = true
  /\ validate_api_key_format (sample_key ++ lit "x") = false.
Proof. split; reflexivity. Qed.

Lemma get_valid_api_keys_wellformed_witness :
  In sample_key (get_valid_api_keys sample_keys_str)
  /\ length sample_key = 29%nat.
Proof.
  assert (H : In sample_key (get_valid_api_keys sample_keys_str))
    by (vm_compute; left; reflexivity).
  split; [exact H |].
  apply (get_valid_api_keys_wellformed sample_keys_str sample_key H).
Defined.

Lemma verify_api_key_refusals_witness :
  verify_api_key [] sample_key
  = HTTPException 500 (lit "No valid API keys configured")
  /\ (500 = 401 \/ 500 = 500).
Proof.
  assert (H : verify_api_key [] sample_key
              = HTTPException 500 (lit "No valid API keys configured"))
    by reflexivity.
  split; [exact H |].
  apply (verify_api_key_refusals [] sample_key 500
           (lit "No valid API keys configured") H).
Defined.


Lemma mcp_tri_query_answers_witness :
  exists envelope made,
    mcp_tri_query ascii_lower sample_world sample_keys_str sample_key all_systems
    = (HttpOk envelope, made)
    /\ envelope_systems_used envelope
       = [lit "semantic"; lit "graph"; lit "temporal"].
Proof.
  destruct (mcp_tri_query_answers ascii_lower sample_world sample_keys_str
              sample_key all_systems)
    as (envelope & made & Hrun & Hused & _); try reflexivity.
  - vm_compute. left. reflexivity.
  - exists envelope, made. split; [exact Hrun | exact Hused].
Defined.

Lemma mcp_tri_query_connection_failure_witness :
  fst (mcp_tri_query ascii_lower world_pg_down sample_keys_str sample_key
         semantic_and_graph)
  = HTTPException 500 (lit "Tri-query failed: " ++ lit "connection refused").
Proof.
  apply (mcp_tri_query_connection_failure ascii_lower world_pg_down
           sample_keys_str sample_key semantic_and_graph).
  - vm_compute. left. reflexivity.
  - left. reflexivity.
  - reflexivity.
  - reflexivity.
Defined.
